(** * shadowsocks/eventloop.py: a shallow embedding and its properties

    The I/O readiness multiplexer of shadowsocks: three backends
    ([EpollLoop], [KqueueLoop], [SelectLoop]) behind one polling contract,
    and the dispatch loop [EventLoop] with its handler lists.

    Python objects are records, dictionaries are [gmap], sets are [gset],
    lists are lists ([items()] of a dictionary is [map_to_list]; the order
    of the items is not modelled).  A method that mutates [self] and may
    raise returns the
    object after the call together with the exception raised, if any: what
    was mutated before the [raise] stays mutated, as in Python.  The
    operating system (the [select] module) is a record of oracles, [Host],
    about which nothing is assumed. *)

From stdpp Require Import gmap list strings.
From Stdlib Require Import ZArith Lia.

Local Open Scope Z_scope.

#[local] Set Warnings "-clear-no-such-hyp".

(** ** Readiness flags *)

Definition POLL_NULL : Z := 0x00.
Definition POLL_IN : Z := 0x01.
Definition POLL_OUT : Z := 0x04.
Definition POLL_ERR : Z := 0x08.
Definition POLL_HUP : Z := 0x10.
Definition POLL_NVAL : Z := 0x20.

(** Python's truth value of an integer: [if mode & POLL_IN:]. *)
Definition truthy (z : Z) : bool := negb (z =? 0).

(** ** Exceptions *)

(** The part of a Python value an exception can carry that the code looks
    at: [None], an integer, or anything else (a message). *)
Inductive pyval :=
| PyNone
| PyInt (z : Z)
| PyStr (s : string).

Inductive exn_class := OSError | IOError | KeyError | ValueError | OtherError.

(** An exception object: its class, its [errno] attribute when it has one
    ([hasattr(e, 'errno')]), and its [args] tuple. *)
Record exn := {
  exn_cls : exn_class;
  exn_errno : option pyval;
  exn_args : list pyval
}.

(** [except (OSError, IOError) as e] *)
Definition is_os_io_error (e : exn) : bool :=
  match exn_cls e with
  | OSError | IOError => true
  | _ => false
  end.

(** The values of [errno.EPIPE] and [errno.EINTR] (the same on Linux, the
    BSDs and macOS). *)
Definition EPIPE : Z := 32.
Definition EINTR : Z := 4.

Definition errno_from_exception (e : exn) : pyval :=
  match exn_errno e with
  | Some v => v
  | None =>
      match exn_args e with
      | a :: _ => a
      | [] => PyNone
      end
  end.

(** [v == z] for an integer constant [z]. *)
Definition pyval_is (v : pyval) (z : Z) : bool :=
  match v with
  | PyInt n => n =? z
  | _ => false
  end.

(** [errno_from_exception(e) in (errno.EPIPE, errno.EINTR)] *)
Definition is_transient (e : exn) : bool :=
  pyval_is (errno_from_exception e) EPIPE
  || pyval_is (errno_from_exception e) EINTR.

(** [del d[k]] on a missing key, and [l.remove(x)] on a missing element. *)
Definition key_error (k : Z) : exn :=
  {| exn_cls := KeyError; exn_errno := None; exn_args := [PyInt k] |}.
Definition value_error : exn :=
  {| exn_cls := ValueError; exn_errno := None;
     exn_args := [PyStr "list.remove(x): x not in list"] |}.

(** ** The host: the [select] module *)

(** The names the code takes from the [select] module. *)
Module select.

(** [select.kevent(fd, filter, flags)] *)
Record kevent := {
  ident : Z;
  filter : Z;
  flags : Z
}.

Definition KQ_FILTER_READ : Z := -1.
Definition KQ_FILTER_WRITE : Z := -2.
Definition KQ_EV_ADD : Z := 1.
Definition KQ_EV_DELETE : Z := 2.

(** A call on an epoll object. *)
Inductive epoll_call :=
| register (fd mode : Z)
| unregister (fd : Z)
| modify (fd mode : Z).

End select.

(** The kernel objects are known by the calls made on them so far; whether
    a call succeeds, and what a wait returns, is up to the host.  The [nat]
    of a wait is the number of waits made before it. *)
Record Host := {
  has_epoll : bool;
  has_kqueue : bool;
  has_select : bool;
  epoll_ctl : list select.epoll_call → select.epoll_call → option exn;
  epoll_wait : list select.epoll_call → nat → option Z → exn + list (Z * Z);
  kqueue_change : list select.kevent → select.kevent → option exn;
  kqueue_wait : list select.kevent → nat → option Z → exn + list select.kevent;
  select_wait : gset Z → gset Z → gset Z → nat → option Z →
                exn + (list Z * list Z * list Z)
}.

(** [results[fd] |= flag] on a [defaultdict(lambda: POLL_NULL)] *)
Definition dict_or (results : gmap Z Z) (fd flag : Z) : gmap Z Z :=
  <[fd := Z.lor (default POLL_NULL (results !! fd)) flag]> results.

(** ** EpollLoop *)

Module EpollLoop.

Record t := { _epoll : list select.epoll_call }.

Definition call (host : Host) (self : t) (c : select.epoll_call) : t * option exn :=
  ({| _epoll := _epoll self ++ [c] |}, epoll_ctl host (_epoll self) c).

Definition poll (host : Host) (self : t) (now : nat) (timeout : Z)
  : exn + list (Z * Z) :=
  epoll_wait host (_epoll self) now (Some timeout).

Definition add_fd (host : Host) (self : t) (fd mode : Z) : t * option exn :=
  call host self (select.register fd mode).

Definition remove_fd (host : Host) (self : t) (fd : Z) : t * option exn :=
  call host self (select.unregister fd).

Definition modify_fd (host : Host) (self : t) (fd mode : Z) : t * option exn :=
  call host self (select.modify fd mode).

End EpollLoop.

(** ** KqueueLoop *)

Module KqueueLoop.

Definition MAX_EVENTS : Z := 1024.

Record t := {
  _kqueue : list select.kevent;
  _fds : gmap Z Z
}.

(** The list [events] that [_control] builds. *)
Definition control_events (fd mode flags : Z) : list select.kevent :=
  (if truthy (Z.land mode POLL_IN)
   then [{| select.ident := fd; select.filter := select.KQ_FILTER_READ;
            select.flags := flags |}]
   else [])
  ++
  (if truthy (Z.land mode POLL_OUT)
   then [{| select.ident := fd; select.filter := select.KQ_FILTER_WRITE;
            select.flags := flags |}]
   else []).

(** [for e in events: self._kqueue.control([e], 0)] *)
Fixpoint submit (host : Host) (kq : list select.kevent) (es : list select.kevent)
  : list select.kevent * option exn :=
  match es with
  | [] => (kq, None)
  | e :: rest =>
      match kqueue_change host kq e with
      | Some ex => (kq ++ [e], Some ex)
      | None => submit host (kq ++ [e]) rest
      end
  end.

Definition _control (host : Host) (self : t) (fd mode flags : Z)
  : t * option exn :=
  let '(kq, r) := submit host (_kqueue self) (control_events fd mode flags) in
  ({| _kqueue := kq; _fds := _fds self |}, r).

(** The loop body of [poll], on one event. *)
Definition merge_event (results : gmap Z Z) (e : select.kevent) : gmap Z Z :=
  let fd := select.ident e in
  if select.filter e =? select.KQ_FILTER_READ then dict_or results fd POLL_IN
  else if select.filter e =? select.KQ_FILTER_WRITE then dict_or results fd POLL_OUT
  else results.

Definition merge (events : list select.kevent) : gmap Z Z :=
  foldl merge_event ∅ events.

Definition poll (host : Host) (self : t) (now : nat) (timeout : Z)
  : exn + list (Z * Z) :=
  let timeout' := if timeout <? 0 then None else Some timeout in
  match kqueue_wait host (_kqueue self) now timeout' with
  | inl ex => inl ex
  | inr events => inr (map_to_list (merge events))
  end.

Definition add_fd (host : Host) (self : t) (fd mode : Z) : t * option exn :=
  _control host {| _kqueue := _kqueue self; _fds := <[fd := mode]> (_fds self) |}
           fd mode select.KQ_EV_ADD.

Definition remove_fd (host : Host) (self : t) (fd : Z) : t * option exn :=
  match _fds self !! fd with
  | None => (self, Some (key_error fd))
  | Some mode =>
      match _control host self fd mode select.KQ_EV_DELETE with
      | (self', Some ex) => (self', Some ex)
      | (self', None) =>
          ({| _kqueue := _kqueue self'; _fds := delete fd (_fds self') |}, None)
      end
  end.

Definition modify_fd (host : Host) (self : t) (fd mode : Z) : t * option exn :=
  match remove_fd host self fd with
  | (self', Some ex) => (self', Some ex)
  | (self', None) => add_fd host self' fd mode
  end.

End KqueueLoop.

(** ** SelectLoop *)

Module SelectLoop.

Record t := {
  _r_list : gset Z;
  _w_list : gset Z;
  _x_list : gset Z
}.

(** [for fd in p[0]: results[fd] |= p[1]] *)
Definition merge_list (flag : Z) (results : gmap Z Z) (fds : list Z) : gmap Z Z :=
  foldl (λ res fd, dict_or res fd flag) results fds.

Definition merge (r w x : list Z) : gmap Z Z :=
  foldl (λ res p, merge_list (snd p) res (fst p)) ∅
        [(r, POLL_IN); (w, POLL_OUT); (x, POLL_ERR)].

Definition poll (host : Host) (self : t) (now : nat) (timeout : Z)
  : exn + list (Z * Z) :=
  match select_wait host (_r_list self) (_w_list self) (_x_list self)
                    now (Some timeout) with
  | inl ex => inl ex
  | inr (r, w, x) => inr (map_to_list (merge r w x))
  end.

Definition add_fd (self : t) (fd mode : Z) : t :=
  let r := if truthy (Z.land mode POLL_IN)
           then {[fd]} ∪ _r_list self else _r_list self in
  let w := if truthy (Z.land mode POLL_OUT)
           then {[fd]} ∪ _w_list self else _w_list self in
  let x := if truthy (Z.land mode POLL_ERR)
           then {[fd]} ∪ _x_list self else _x_list self in
  {| _r_list := r; _w_list := w; _x_list := x |}.

Definition remove_fd (self : t) (fd : Z) : t :=
  let r := if decide (fd ∈ _r_list self)
           then _r_list self ∖ {[fd]} else _r_list self in
  let w := if decide (fd ∈ _w_list self)
           then _w_list self ∖ {[fd]} else _w_list self in
  let x := if decide (fd ∈ _x_list self)
           then _x_list self ∖ {[fd]} else _x_list self in
  {| _r_list := r; _w_list := w; _x_list := x |}.

Definition modify_fd (self : t) (fd mode : Z) : t :=
  add_fd (remove_fd self fd) fd mode.

End SelectLoop.

(** ** EventLoop *)

(** An endpoint is an object with a [fileno()]; [ep_id] is its identity. *)
Record endpoint := {
  ep_id : nat;
  fileno : Z
}.

(** A handler is a callable, known by its identity alone. *)
Definition handler := nat.

(** What [EventLoop.poll] returns: [(f, fd, event)]. *)
Definition event : Type := endpoint * Z * Z.

(** [self._impl]: one of the three backends. *)
Inductive impl :=
| ImplEpoll (b : EpollLoop.t)
| ImplKqueue (b : KqueueLoop.t)
| ImplSelect (b : SelectLoop.t).

Definition impl_poll (host : Host) (i : impl) (now : nat) (timeout : Z)
  : exn + list (Z * Z) :=
  match i with
  | ImplEpoll b => EpollLoop.poll host b now timeout
  | ImplKqueue b => KqueueLoop.poll host b now timeout
  | ImplSelect b => SelectLoop.poll host b now timeout
  end.

Definition impl_add_fd (host : Host) (i : impl) (fd mode : Z) : impl * option exn :=
  match i with
  | ImplEpoll b => let '(b', r) := EpollLoop.add_fd host b fd mode in (ImplEpoll b', r)
  | ImplKqueue b => let '(b', r) := KqueueLoop.add_fd host b fd mode in (ImplKqueue b', r)
  | ImplSelect b => (ImplSelect (SelectLoop.add_fd b fd mode), None)
  end.

Definition impl_remove_fd (host : Host) (i : impl) (fd : Z) : impl * option exn :=
  match i with
  | ImplEpoll b => let '(b', r) := EpollLoop.remove_fd host b fd in (ImplEpoll b', r)
  | ImplKqueue b => let '(b', r) := KqueueLoop.remove_fd host b fd in (ImplKqueue b', r)
  | ImplSelect b => (ImplSelect (SelectLoop.remove_fd b fd), None)
  end.

Definition impl_modify_fd (host : Host) (i : impl) (fd mode : Z) : impl * option exn :=
  match i with
  | ImplEpoll b => let '(b', r) := EpollLoop.modify_fd host b fd mode in (ImplEpoll b', r)
  | ImplKqueue b => let '(b', r) := KqueueLoop.modify_fd host b fd mode in (ImplKqueue b', r)
  | ImplSelect b => (ImplSelect (SelectLoop.modify_fd b fd mode), None)
  end.

(** [l.remove(x)]: drops the first occurrence, [ValueError] ([None]) when
    there is none. *)
Fixpoint list_remove (x : handler) (l : list handler) : option (list handler) :=
  match l with
  | [] => None
  | y :: l' => if decide (y = x) then Some l' else cons y <$> list_remove x l'
  end.

Module EventLoop.

Record t := {
  _iterating : bool;
  _impl : impl;
  _fd_to_f : gmap Z endpoint;
  _handlers : list handler;
  _ref_handlers : list handler;
  _handlers_to_remove : list handler
}.

Definition set_iterating (b : bool) (self : t) : t :=
  {| _iterating := b; _impl := _impl self; _fd_to_f := _fd_to_f self;
     _handlers := _handlers self; _ref_handlers := _ref_handlers self;
     _handlers_to_remove := _handlers_to_remove self |}.
Definition set_impl (i : impl) (self : t) : t :=
  {| _iterating := _iterating self; _impl := i; _fd_to_f := _fd_to_f self;
     _handlers := _handlers self; _ref_handlers := _ref_handlers self;
     _handlers_to_remove := _handlers_to_remove self |}.
Definition set_fd_to_f (m : gmap Z endpoint) (self : t) : t :=
  {| _iterating := _iterating self; _impl := _impl self; _fd_to_f := m;
     _handlers := _handlers self; _ref_handlers := _ref_handlers self;
     _handlers_to_remove := _handlers_to_remove self |}.
Definition set_handlers (l : list handler) (self : t) : t :=
  {| _iterating := _iterating self; _impl := _impl self; _fd_to_f := _fd_to_f self;
     _handlers := l; _ref_handlers := _ref_handlers self;
     _handlers_to_remove := _handlers_to_remove self |}.
Definition set_ref_handlers (l : list handler) (self : t) : t :=
  {| _iterating := _iterating self; _impl := _impl self; _fd_to_f := _fd_to_f self;
     _handlers := _handlers self; _ref_handlers := l;
     _handlers_to_remove := _handlers_to_remove self |}.
Definition set_handlers_to_remove (l : list handler) (self : t) : t :=
  {| _iterating := _iterating self; _impl := _impl self; _fd_to_f := _fd_to_f self;
     _handlers := _handlers self; _ref_handlers := _ref_handlers self;
     _handlers_to_remove := l |}.

Definition no_backend : exn :=
  {| exn_cls := OtherError; exn_errno := None;
     exn_args := [PyStr "can not find any available functions in select package"] |}.

(** The object as [__init__] leaves it, given the backend it chose. *)
Definition fresh (i : impl) : t :=
  {| _iterating := false; _impl := i; _fd_to_f := ∅;
     _handlers := []; _ref_handlers := []; _handlers_to_remove := [] |}.

(** Returns the loop and the [model] name it logs, or the exception.
    [hasattr(select, ...)] is what the host has; the constructors
    [select.epoll()] and [select.kqueue()] are taken to succeed. *)
Definition __init__ (host : Host) : exn + t * string :=
  if has_epoll host then
    inr (fresh (ImplEpoll {| EpollLoop._epoll := [] |}), "epoll"%string)
  else if has_kqueue host then
    inr (fresh (ImplKqueue {| KqueueLoop._kqueue := []; KqueueLoop._fds := ∅ |}),
         "kqueue"%string)
  else if has_select host then
    inr (fresh (ImplSelect {| SelectLoop._r_list := ∅; SelectLoop._w_list := ∅;
                              SelectLoop._x_list := ∅ |}),
         "select"%string)
  else inl no_backend.

(** [[(self._fd_to_f[fd], fd, event) for fd, event in events]] *)
Fixpoint translate (reg : gmap Z endpoint) (events : list (Z * Z))
  : exn + list event :=
  match events with
  | [] => inr []
  | (fd, ev) :: rest =>
      match reg !! fd with
      | None => inl (key_error fd)
      | Some f =>
          match translate reg rest with
          | inl ex => inl ex
          | inr l => inr ((f, fd, ev) :: l)
          end
      end
  end.

(** The timeout is a number here; [run] passes 1. *)
Definition poll (host : Host) (self : t) (now : nat) (timeout : Z)
  : exn + list event :=
  match impl_poll host (_impl self) now timeout with
  | inl ex => inl ex
  | inr events => translate (_fd_to_f self) events
  end.

Definition add (host : Host) (self : t) (f : endpoint) (mode : Z) : t * option exn :=
  let fd := fileno f in
  let self1 := set_fd_to_f (<[fd := f]> (_fd_to_f self)) self in
  let '(i, r) := impl_add_fd host (_impl self1) fd mode in
  (set_impl i self1, r).

Definition remove (host : Host) (self : t) (f : endpoint) : t * option exn :=
  let fd := fileno f in
  match _fd_to_f self !! fd with
  | None => (self, Some (key_error fd))
  | Some _ =>
      let self1 := set_fd_to_f (delete fd (_fd_to_f self)) self in
      let '(i, r) := impl_remove_fd host (_impl self1) fd in
      (set_impl i self1, r)
  end.

Definition modify (host : Host) (self : t) (f : endpoint) (mode : Z) : t * option exn :=
  let fd := fileno f in
  let '(i, r) := impl_modify_fd host (_impl self) fd mode in
  (set_impl i self, r).

Definition add_handler (self : t) (h : handler) (ref : bool) : t :=
  let self1 := set_handlers (_handlers self ++ [h]) self in
  if ref then set_ref_handlers (_ref_handlers self1 ++ [h]) self1 else self1.

Definition remove_handler (self : t) (h : handler) : t * option exn :=
  let self1 :=
    if decide (h ∈ _ref_handlers self)
    then set_ref_handlers (default (_ref_handlers self)
                                   (list_remove h (_ref_handlers self))) self
    else self in
  if _iterating self1 then
    (set_handlers_to_remove (_handlers_to_remove self1 ++ [h]) self1, None)
  else
    match list_remove h (_handlers self1) with
    | Some l => (set_handlers l self1, None)
    | None => (self1, Some value_error)
    end.

(** *** Handlers and [run] *)

(** What a handler does when it is called, as far as the loop can tell:
    calls on the loop, in order, up to the first one that raises, or a
    [raise] of its own. *)
Inductive action :=
| CallAdd (f : endpoint) (mode : Z)
| CallRemove (f : endpoint)
| CallModify (f : endpoint) (mode : Z)
| CallAddHandler (h : handler) (ref : bool)
| CallRemoveHandler (h : handler)
| Raise (e : exn).

Definition perform (host : Host) (a : action) (self : t) : t * option exn :=
  match a with
  | CallAdd f mode => add host self f mode
  | CallRemove f => remove host self f
  | CallModify f mode => modify host self f mode
  | CallAddHandler h ref => (add_handler self h ref, None)
  | CallRemoveHandler h => remove_handler self h
  | Raise e => (self, Some e)
  end.

Fixpoint run_script (host : Host) (acts : list action) (self : t) : t * option exn :=
  match acts with
  | [] => (self, None)
  | a :: rest =>
      match perform host a self with
      | (self', Some ex) => (self', Some ex)
      | (self', None) => run_script host rest self'
      end
  end.

(** Where [run] is: at the [while] test, inside the [for] loop about to
    take element [i] of [self._handlers], back in the caller, or left
    through an exception. *)
Inductive control :=
| AtTop
| AtDispatch (i : nat)
| Returned
| Escaped (e : exn).

(** What [run] does that can be seen from outside. *)
Inductive obs :=
| ObsLogDebug (e : exn)
| ObsLogError (e : exn)
| ObsTraceback
| ObsInvoke (h : handler) (events : list event).

(** The loop object, the number of polls made so far, the local variable
    [events] of [run], the control point and what has been observed. *)
Record World := {
  loop : t;
  clock : nat;
  events : list event;
  pc : control;
  trace : list obs
}.

(** The code of the handlers: what handler [h], called with [events] in
    the world [w], does. *)
Definition behaviour := handler → list event → World → list action.

(** [for handler in self._handlers_to_remove: self._handlers.remove(handler)] *)
Fixpoint flush (hs pending : list handler) : list handler * option exn :=
  match pending with
  | [] => (hs, None)
  | h :: rest =>
      match list_remove h hs with
      | Some hs' => flush hs' rest
      | None => (hs, Some value_error)
      end
  end.

Definition enter_run (self : t) (now : nat) : World :=
  {| loop := self; clock := now; events := []; pc := AtTop; trace := [] |}.

(** The [while] test, the poll and its [except] clause. *)
Definition step_top (host : Host) (w : World) : World :=
  match _ref_handlers (loop w) with
  | [] =>
      {| loop := loop w; clock := clock w; events := events w;
         pc := Returned; trace := trace w |}
  | _ :: _ =>
      match poll host (loop w) (clock w) 1 with
      | inr evs =>
          {| loop := set_iterating true (loop w); clock := S (clock w);
             events := evs; pc := AtDispatch 0; trace := trace w |}
      | inl e =>
          if is_os_io_error e then
            if is_transient e then
              {| loop := set_iterating true (loop w); clock := S (clock w);
                 events := events w; pc := AtDispatch 0;
                 trace := trace w ++ [ObsLogDebug e] |}
            else
              {| loop := loop w; clock := S (clock w);
                 events := events w; pc := AtTop;
                 trace := trace w ++ [ObsLogError e; ObsTraceback] |}
          else
            {| loop := loop w; clock := S (clock w);
               events := events w; pc := Escaped e; trace := trace w |}
      end
  end.

(** One call [handler(events)] and its [except] clause. *)
Definition step_invoke (host : Host) (body : behaviour) (i : nat) (h : handler)
                       (w : World) : World :=
  let '(self', r) := run_script host (body h (events w) w) (loop w) in
  let tr := trace w ++ [ObsInvoke h (events w)] in
  match r with
  | None =>
      {| loop := self'; clock := clock w; events := events w;
         pc := AtDispatch (S i); trace := tr |}
  | Some e =>
      if is_os_io_error e then
        {| loop := self'; clock := clock w; events := events w;
           pc := AtDispatch (S i); trace := tr ++ [ObsLogError e; ObsTraceback] |}
      else
        {| loop := self'; clock := clock w; events := events w;
           pc := Escaped e; trace := tr |}
  end.

(** After the [for] loop: the pending removals, then [_iterating = False]. *)
Definition step_flush (w : World) : World :=
  match _handlers_to_remove (loop w) with
  | [] =>
      {| loop := set_iterating false (loop w); clock := clock w;
         events := events w; pc := AtTop; trace := trace w |}
  | _ :: _ =>
      match flush (_handlers (loop w)) (_handlers_to_remove (loop w)) with
      | (hs, None) =>
          {| loop := set_iterating false
                       (set_handlers_to_remove [] (set_handlers hs (loop w)));
             clock := clock w; events := events w; pc := AtTop; trace := trace w |}
      | (hs, Some e) =>
          {| loop := set_handlers hs (loop w);
             clock := clock w; events := events w; pc := Escaped e; trace := trace w |}
      end
  end.

(** One step of [run].  The [for] loop walks the live list by index, as
    Python's list iterator does, so that what a handler appends is
    reached in the same pass. *)
Definition run_step (host : Host) (body : behaviour) (w : World) : World :=
  match pc w with
  | AtTop => step_top host w
  | AtDispatch i =>
      match _handlers (loop w) !! i with
      | Some h => step_invoke host body i h w
      | None => step_flush w
      end
  | Returned | Escaped _ => w
  end.

(** [run], for [fuel] steps. *)
Fixpoint run (host : Host) (body : behaviour) (fuel : nat) (w : World) : World :=
  match fuel with
  | O => w
  | S fuel' => run host body fuel' (run_step host body w)
  end.

End EventLoop.

(** ** Vocabulary of the statements *)

(** The three facilities, and the order in which the constructor looks for
    them. *)
Inductive facility := Fepoll | Fkqueue | Fselect.

Definition available (host : Host) (f : facility) : bool :=
  match f with
  | Fepoll => has_epoll host
  | Fkqueue => has_kqueue host
  | Fselect => has_select host
  end.

Definition facility_of (i : impl) : facility :=
  match i with
  | ImplEpoll _ => Fepoll
  | ImplKqueue _ => Fkqueue
  | ImplSelect _ => Fselect
  end.

Definition priority : list facility := [Fepoll; Fkqueue; Fselect].

(** What a native wait reported, as (descriptor, flag) pairs: one pair per
    kqueue event of the read or write filter, one per member of a ready list
    of select. *)
Definition kqueue_report (e : select.kevent) : option (Z * Z) :=
  if select.filter e =? select.KQ_FILTER_READ then Some (select.ident e, POLL_IN)
  else if select.filter e =? select.KQ_FILTER_WRITE then Some (select.ident e, POLL_OUT)
  else None.

Definition kqueue_reports (events : list select.kevent) : list (Z * Z) :=
  omap kqueue_report events.

Definition select_reports (r w x : list Z) : list (Z * Z) :=
  ((λ fd, (fd, POLL_IN)) <$> r) ++ ((λ fd, (fd, POLL_OUT)) <$> w)
  ++ ((λ fd, (fd, POLL_ERR)) <$> x).

(** The flags reported for [fd], and their OR from a zero accumulator. *)
Definition flags_of (fd : Z) (reports : list (Z * Z)) : list Z :=
  (base.filter (λ p, p.1 = fd) reports).*2.

Definition or_all (fs : list Z) : Z := foldl Z.lor POLL_NULL fs.

(** [l] lists each descriptor that has a report once, with the OR of its
    reported flags. *)
Definition merged (reports l : list (Z * Z)) : Prop :=
  NoDup l.*1
  ∧ ∀ fd fl, (fd, fl) ∈ l ↔
             flags_of fd reports ≠ [] ∧ fl = or_all (flags_of fd reports).

(** A call of a collaborator on the registration interface. *)
Inductive reg_call :=
| RegAdd (f : endpoint) (mode : Z)
| RegRemove (f : endpoint)
| RegModify (f : endpoint) (mode : Z).

Definition do_call (host : Host) (c : reg_call) (self : EventLoop.t)
  : EventLoop.t * option exn :=
  match c with
  | RegAdd f mode => EventLoop.add host self f mode
  | RegRemove f => EventLoop.remove host self f
  | RegModify f mode => EventLoop.modify host self f mode
  end.

(** The calls one after the other; what a call raises goes to its caller,
    who makes the next call. *)
Fixpoint do_calls (host : Host) (cs : list reg_call) (self : EventLoop.t)
  : EventLoop.t :=
  match cs with
  | [] => self
  | c :: cs' => do_calls host cs' (do_call host c self).1
  end.

(** No add of a registered descriptor and no remove of an unregistered
    one, from the set of descriptors registered at the start. *)
Fixpoint well_formed (registered : gset Z) (cs : list reg_call) : Prop :=
  match cs with
  | [] => True
  | RegAdd f _ :: cs' =>
      (fileno f ∉ registered) ∧ well_formed ({[fileno f]} ∪ registered) cs'
  | RegRemove f :: cs' =>
      (fileno f ∈ registered) ∧ well_formed (registered ∖ {[fileno f]}) cs'
  | RegModify _ _ :: cs' => well_formed registered cs'
  end.

(** The net effect of the calls in order, in the specification's words: an
    add maps the descriptor to its endpoint, a remove unmaps it, a modify
    changes nothing. *)
Definition net_step (m : gmap Z endpoint) (c : reg_call) : gmap Z endpoint :=
  match c with
  | RegAdd f _ => <[fileno f := f]> m
  | RegRemove f => delete (fileno f) m
  | RegModify _ _ => m
  end.

Definition net_effect (m : gmap Z endpoint) (cs : list reg_call) : gmap Z endpoint :=
  foldl net_step m cs.

(** [c] adds or removes the descriptor [fd]. *)
Definition touches (fd : Z) (c : reg_call) : bool :=
  match c with
  | RegAdd f _ | RegRemove f => bool_decide (fileno f = fd)
  | RegModify _ _ => false
  end.

(** How many adds and removes a sequence of calls has. *)
Fixpoint count_adds (cs : list reg_call) : nat :=
  match cs with
  | [] => O
  | RegAdd _ _ :: cs' => S (count_adds cs')
  | _ :: cs' => count_adds cs'
  end.

Fixpoint count_removes (cs : list reg_call) : nat :=
  match cs with
  | [] => O
  | RegRemove _ :: cs' => S (count_removes cs')
  | _ :: cs' => count_removes cs'
  end.

(** An action that is not a call of [add_handler] or [remove_handler]. *)
Definition leaves_handlers (a : EventLoop.action) : bool :=
  match a with
  | EventLoop.CallAddHandler _ _ | EventLoop.CallRemoveHandler _ => false
  | _ => true
  end.

(** An action that is not a call of [add_handler]. *)
Definition adds_no_handler (a : EventLoop.action) : bool :=
  match a with
  | EventLoop.CallAddHandler _ _ => false
  | _ => true
  end.

(** [run] has left the loop, by [return] or by an exception. *)
Definition finished (c : EventLoop.control) : bool :=
  match c with
  | EventLoop.Returned | EventLoop.Escaped _ => true
  | _ => false
  end.

(** ** Concrete hosts, loops and handlers *)

(** An [OSError] with the given errno. *)
Definition os_error (n : Z) : exn :=
  {| exn_cls := OSError; exn_errno := Some (PyInt n);
     exn_args := [PyInt n; PyStr "os error"] |}.

(** A [ValueError] that a handler raises itself. *)
Definition bad_value : exn :=
  {| exn_cls := ValueError; exn_errno := None; exn_args := [PyStr "bad value"] |}.

(** A host with all three facilities, where every call succeeds and every
    wait times out with nothing ready. *)
Definition quiet_host : Host :=
  {| has_epoll := true; has_kqueue := true; has_select := true;
     epoll_ctl := λ _ _, None;
     epoll_wait := λ _ _ _, inr [];
     kqueue_change := λ _ _, None;
     kqueue_wait := λ _ _ _, inr [];
     select_wait := λ _ _ _ _ _, inr ([], [], []) |}.

(** The same host, but its first epoll wait fails with the given errno. *)
Definition failing_host (n : Z) : Host :=
  {| has_epoll := true; has_kqueue := true; has_select := true;
     epoll_ctl := λ _ _, None;
     epoll_wait := λ _ now _, if decide (now = O) then inl (os_error n) else inr [];
     kqueue_change := λ _ _, None;
     kqueue_wait := λ _ _ _, inr [];
     select_wait := λ _ _ _ _ _, inr ([], [], []) |}.

(** A host whose waits report descriptor 3 readable and writable and
    descriptor 5 readable. *)
Definition busy_host : Host :=
  {| has_epoll := false; has_kqueue := true; has_select := true;
     epoll_ctl := λ _ _, None;
     epoll_wait := λ _ _ _, inr [];
     kqueue_change := λ _ _, None;
     kqueue_wait := λ _ _ _,
       inr [ {| select.ident := 3; select.filter := select.KQ_FILTER_READ;
                select.flags := 0 |};
             {| select.ident := 3; select.filter := select.KQ_FILTER_WRITE;
                select.flags := 0 |};
             {| select.ident := 5; select.filter := select.KQ_FILTER_READ;
                select.flags := 0 |} ];
     select_wait := λ _ _ _ _ _, inr ([3; 5], [3], []) |}.

Definition empty_kqueue : KqueueLoop.t :=
  {| KqueueLoop._kqueue := []; KqueueLoop._fds := ∅ |}.

Definition empty_select : SelectLoop.t :=
  {| SelectLoop._r_list := ∅; SelectLoop._w_list := ∅; SelectLoop._x_list := ∅ |}.

Definition epoll_loop : EventLoop.t :=
  EventLoop.fresh (ImplEpoll {| EpollLoop._epoll := [] |}).

(** A loop with the reference handler 1, and one with the reference
    handlers 1 and 2. *)
Definition one_handler : EventLoop.t :=
  EventLoop.add_handler epoll_loop 1%nat true.

Definition two_handlers : EventLoop.t :=
  EventLoop.add_handler one_handler 2%nat true.

(** Handlers that do nothing. *)
Definition idle : EventLoop.behaviour := λ _ _ _, [].

(** Every handler removes itself. *)
Definition leaving : EventLoop.behaviour :=
  λ h _ _, [EventLoop.CallRemoveHandler h].

(** Handler 1 removes handler 2; the others do nothing. *)
Definition first_removes_second : EventLoop.behaviour :=
  λ h _ _, if decide (h = 1%nat) then [EventLoop.CallRemoveHandler 2%nat] else [].

(** Handler 1 adds handler 3 and removes handler 2; handler 2 removes
    itself; the others do nothing. *)
Definition adding_and_removing : EventLoop.behaviour :=
  λ h _ _,
    if decide (h = 1%nat)
    then [EventLoop.CallAddHandler 3%nat false; EventLoop.CallRemoveHandler 2%nat]
    else if decide (h = 2%nat) then [EventLoop.CallRemoveHandler 2%nat]
    else [].

(** Handler 1 raises a [ValueError]. *)
Definition raising : EventLoop.behaviour :=
  λ h _ _, if decide (h = 1%nat) then [EventLoop.Raise bad_value] else [].

(** Two endpoints on descriptor 3, one on descriptor 4. *)
Definition sock3 : endpoint := {| ep_id := 0; fileno := 3 |}.
Definition sock3' : endpoint := {| ep_id := 1; fileno := 3 |}.
Definition sock4 : endpoint := {| ep_id := 2; fileno := 4 |}.

(** Handler 1 raises an [OSError]. *)
Definition failing : EventLoop.behaviour :=
  λ h _ _, if decide (h = 1%nat) then [EventLoop.Raise (os_error 9)] else [].

(** [run] entered on the loop with one handler, and with two. *)
Definition start_one : EventLoop.World := EventLoop.enter_run one_handler 0.
Definition start_two : EventLoop.World := EventLoop.enter_run two_handlers 0.

(** The world of [start_two] after a successful poll, about to call the
    first handler. *)
Definition dispatching_two : EventLoop.World :=
  {| EventLoop.loop := EventLoop.set_iterating true two_handlers;
     EventLoop.clock := 1; EventLoop.events := [];
     EventLoop.pc := EventLoop.AtDispatch 0; EventLoop.trace := [] |}.

(** A collaborator's calls: descriptor 3 is added, modified, removed and
    added again for another endpoint, then descriptor 4 is added. *)
Definition some_calls : list reg_call :=
  [RegAdd sock3 POLL_IN; RegModify sock3 POLL_OUT; RegRemove sock3;
   RegAdd sock3' POLL_IN; RegAdd sock4 POLL_OUT].

(** ** Vocabulary of the further properties *)

(** The handler calls in a trace, in order, each with the events it got. *)
Definition invoked (tr : list EventLoop.obs) : list (handler * list event) :=
  omap (λ o, match o with
             | EventLoop.ObsInvoke h evs => Some (h, evs)
             | _ => None
             end) tr.

(** The flag and the pending list agree with the control point: clear and
    empty outside the iteration, set inside. *)
Definition consistent (w : EventLoop.World) : Prop :=
  match EventLoop.pc w with
  | EventLoop.AtTop | EventLoop.Returned =>
      EventLoop._iterating (EventLoop.loop w) = false
      ∧ EventLoop._handlers_to_remove (EventLoop.loop w) = []
  | EventLoop.AtDispatch _ => EventLoop._iterating (EventLoop.loop w) = true
  | EventLoop.Escaped _ => True
  end.

(** The call on the epoll object that a registration call stands for. *)
Definition epoll_call_of (c : reg_call) : select.epoll_call :=
  match c with
  | RegAdd f mode => select.register (fileno f) mode
  | RegRemove f => select.unregister (fileno f)
  | RegModify f mode => select.modify (fileno f) mode
  end.

(** The descriptors the select backend passes to [select.select]. *)
Definition select_monitored (b : SelectLoop.t) : gset Z :=
  SelectLoop._r_list b ∪ SelectLoop._w_list b ∪ SelectLoop._x_list b.

(** Every modify in the sequence is of a descriptor registered by then. *)
Fixpoint modifies_registered (registered : gset Z) (cs : list reg_call) : Prop :=
  match cs with
  | [] => True
  | RegAdd f _ :: cs' => modifies_registered ({[fileno f]} ∪ registered) cs'
  | RegRemove f :: cs' => modifies_registered (registered ∖ {[fileno f]}) cs'
  | RegModify f _ :: cs' =>
      (fileno f ∈ registered) ∧ modifies_registered registered cs'
  end.

(** The bits a backend can report. *)
Definition kqueue_mask : Z := Z.lor POLL_IN POLL_OUT.
Definition select_mask : Z := Z.lor (Z.lor POLL_IN POLL_OUT) POLL_ERR.

(** Loops on the kqueue and on the select backend. *)
Definition kqueue_loop : EventLoop.t := EventLoop.fresh (ImplKqueue empty_kqueue).
Definition select_loop : EventLoop.t := EventLoop.fresh (ImplSelect empty_select).

(** A host whose kqueue refuses every change request. *)
Definition refusing_host : Host :=
  {| has_epoll := false; has_kqueue := true; has_select := true;
     epoll_ctl := λ _ _, None;
     epoll_wait := λ _ _ _, inr [];
     kqueue_change := λ _ _, Some (os_error 9);
     kqueue_wait := λ _ _ _, inr [];
     select_wait := λ _ _ _ _ _, inr ([], [], []) |}.

(** The kqueue backend after an add that the kernel refused. *)
Definition refused_add : KqueueLoop.t :=
  (KqueueLoop.add_fd refusing_host empty_kqueue 7 POLL_IN).1.

(** The world of [dispatching_two] after both handlers have been called,
    with the handlers of [first_removes_second] (handler 2 is pending once)
    and with those of [adding_and_removing], after its three calls (handler
    2 is pending twice). *)
Definition flushing_once : EventLoop.World :=
  EventLoop.run quiet_host first_removes_second 2 dispatching_two.
Definition flushing_twice : EventLoop.World :=
  EventLoop.run quiet_host adding_and_removing 3 dispatching_two.

(** * Properties *)

(** ** Backend selection *)

(** C8: the constructor takes the first facility the host has in the order
    epoll, kqueue, select, builds the loop on that one backend with empty
    registry and handler lists, and raises, building nothing, exactly when
    the host has none of the three. *)
Theorem init_takes_first_available (host : Host) :
  match EventLoop.__init__ host with
  | inr (self, _) =>
      find (available host) priority = Some (facility_of (EventLoop._impl self))
      ∧ ∃ i, self = EventLoop.fresh i
  | inl e =>
      find (available host) priority = None
      ∧ (∀ f, available host f = false)
      ∧ e = EventLoop.no_backend
  end.
Proof.
  unfold EventLoop.__init__, priority; simpl.
  destruct (has_epoll host) eqn:He; [eauto|].
  destruct (has_kqueue host) eqn:Hk; [eauto|].
  destruct (has_select host) eqn:Hs; [eauto|].
  repeat split. intros []; assumption.
Qed.

(** ** Native interest of the kqueue and select backends *)

Lemma truthy_true (z : Z) : truthy z = true ↔ z ≠ 0.
Proof. unfold truthy. destruct (Z.eqb_spec z 0); simpl; split; congruence. Qed.

Lemma truthy_false (z : Z) : truthy z = false ↔ z = 0.
Proof. unfold truthy. destruct (Z.eqb_spec z 0); simpl; split; congruence. Qed.

Lemma control_events_spec (fd mode fl : Z) (e : select.kevent) :
  e ∈ KqueueLoop.control_events fd mode fl ↔
  select.ident e = fd ∧ select.flags e = fl ∧
  ((select.filter e = select.KQ_FILTER_READ ∧ Z.land mode POLL_IN ≠ 0)
   ∨ (select.filter e = select.KQ_FILTER_WRITE ∧ Z.land mode POLL_OUT ≠ 0)).
Proof.
  unfold KqueueLoop.control_events. rewrite elem_of_app. split.
  - intros [H|H].
    + destruct (truthy (Z.land mode POLL_IN)) eqn:Hi; [|by apply elem_of_nil in H].
      apply list_elem_of_singleton in H. subst e; simpl.
      apply truthy_true in Hi. tauto.
    + destruct (truthy (Z.land mode POLL_OUT)) eqn:Ho; [|by apply elem_of_nil in H].
      apply list_elem_of_singleton in H. subst e; simpl.
      apply truthy_true in Ho. tauto.
  - intros (Hid & Hfl & [[Hf Hm]|[Hf Hm]]); [left|right];
      apply truthy_true in Hm; rewrite Hm; apply list_elem_of_singleton;
      destruct e; simpl in *; congruence.
Qed.

Lemma control_events_none (fd mode fl : Z) :
  Z.land mode POLL_IN = 0 → Z.land mode POLL_OUT = 0 →
  KqueueLoop.control_events fd mode fl = [].
Proof.
  intros Hi Ho. unfold KqueueLoop.control_events.
  apply truthy_false in Hi, Ho. by rewrite Hi, Ho.
Qed.

(** The kernel sees a prefix of the requests built, all of them when none
    fails. *)
Lemma submit_sends_prefix (host : Host) (es kq : list select.kevent) :
  ∃ sent, (KqueueLoop.submit host kq es).1 = kq ++ sent
          ∧ sent `prefix_of` es
          ∧ ((KqueueLoop.submit host kq es).2 = None → sent = es).
Proof.
  revert kq. induction es as [|e es IH]; intros kq; simpl.
  - exists []. rewrite app_nil_r. repeat split; done.
  - destruct (kqueue_change host kq e) as [ex|] eqn:Hc; simpl.
    + exists [e]. repeat split; [|done]. by apply prefix_cons, prefix_nil.
    + destruct (IH (kq ++ [e])) as (sent & H1 & H2 & H3).
      exists (e :: sent). rewrite H1, <- app_assoc. simpl.
      repeat split; [by apply prefix_cons|]. intros H. by rewrite H3.
Qed.

Lemma control_sends_prefix (host : Host) (self : KqueueLoop.t) (fd mode fl : Z) :
  ∃ sent,
    KqueueLoop._kqueue (KqueueLoop._control host self fd mode fl).1
    = KqueueLoop._kqueue self ++ sent
    ∧ KqueueLoop._fds (KqueueLoop._control host self fd mode fl).1
      = KqueueLoop._fds self
    ∧ sent `prefix_of` KqueueLoop.control_events fd mode fl
    ∧ ((KqueueLoop._control host self fd mode fl).2 = None
       → sent = KqueueLoop.control_events fd mode fl).
Proof.
  unfold KqueueLoop._control.
  destruct (submit_sends_prefix host (KqueueLoop.control_events fd mode fl)
              (KqueueLoop._kqueue self)) as (sent & H1 & H2 & H3).
  destruct (KqueueLoop.submit _ _ _) as [kq r]; simpl in *. eauto.
Qed.

Lemma kqueue_add_fd_sends (host : Host) (self : KqueueLoop.t) (fd mode : Z) :
  ∃ sent,
    KqueueLoop._kqueue (KqueueLoop.add_fd host self fd mode).1
    = KqueueLoop._kqueue self ++ sent
    ∧ sent `prefix_of` KqueueLoop.control_events fd mode select.KQ_EV_ADD
    ∧ ((KqueueLoop.add_fd host self fd mode).2 = None
       → sent = KqueueLoop.control_events fd mode select.KQ_EV_ADD).
Proof.
  unfold KqueueLoop.add_fd.
  destruct (control_sends_prefix host
              {| KqueueLoop._kqueue := KqueueLoop._kqueue self;
                 KqueueLoop._fds := <[fd:=mode]> (KqueueLoop._fds self) |}
              fd mode select.KQ_EV_ADD) as (sent & H1 & _ & H2 & H3).
  eauto.
Qed.

Lemma kqueue_remove_fd_sends (host : Host) (self : KqueueLoop.t) (fd : Z) :
  ∃ sent,
    KqueueLoop._kqueue (KqueueLoop.remove_fd host self fd).1
    = KqueueLoop._kqueue self ++ sent
    ∧ sent `prefix_of`
        KqueueLoop.control_events fd (default 0 (KqueueLoop._fds self !! fd))
                                  select.KQ_EV_DELETE.
Proof.
  unfold KqueueLoop.remove_fd.
  destruct (KqueueLoop._fds self !! fd) as [old|] eqn:Hfd; simpl.
  - destruct (control_sends_prefix host self fd old select.KQ_EV_DELETE)
      as (sent & H1 & _ & H2 & _).
    destruct (KqueueLoop._control _ _ _ _ _) as [self' [ex|]]; simpl in *; eauto.
  - exists []. rewrite app_nil_r. split; [done|apply prefix_nil].
Qed.

Lemma kqueue_modify_fd_sends (host : Host) (self : KqueueLoop.t) (fd mode : Z) :
  ∃ dels adds,
    KqueueLoop._kqueue (KqueueLoop.modify_fd host self fd mode).1
    = KqueueLoop._kqueue self ++ dels ++ adds
    ∧ dels `prefix_of`
        KqueueLoop.control_events fd (default 0 (KqueueLoop._fds self !! fd))
                                  select.KQ_EV_DELETE
    ∧ adds `prefix_of` KqueueLoop.control_events fd mode select.KQ_EV_ADD.
Proof.
  unfold KqueueLoop.modify_fd.
  destruct (kqueue_remove_fd_sends host self fd) as (dels & H1 & H2).
  destruct (KqueueLoop.remove_fd host self fd) as [self' [ex|]]; simpl in *.
  - exists dels, []. rewrite app_nil_r. repeat split; [done..|apply prefix_nil].
  - destruct (kqueue_add_fd_sends host self' fd mode) as (adds & H3 & H4 & _).
    exists dels, adds. rewrite H3, H1, app_assoc. done.
Qed.

Lemma select_add_fd_none (self : SelectLoop.t) (fd mode : Z) :
  Z.land mode POLL_IN = 0 → Z.land mode POLL_OUT = 0 → Z.land mode POLL_ERR = 0 →
  SelectLoop.add_fd self fd mode = self.
Proof.
  intros Hi Ho He. unfold SelectLoop.add_fd.
  apply truthy_false in Hi, Ho, He. rewrite Hi, Ho, He. by destruct self.
Qed.

Lemma select_add_fd_member (self : SelectLoop.t) (fd mode fd' : Z) :
  (fd' ∈ SelectLoop._r_list (SelectLoop.add_fd self fd mode)
   ↔ fd' ∈ SelectLoop._r_list self ∨ (fd' = fd ∧ Z.land mode POLL_IN ≠ 0))
  ∧ (fd' ∈ SelectLoop._w_list (SelectLoop.add_fd self fd mode)
     ↔ fd' ∈ SelectLoop._w_list self ∨ (fd' = fd ∧ Z.land mode POLL_OUT ≠ 0))
  ∧ (fd' ∈ SelectLoop._x_list (SelectLoop.add_fd self fd mode)
     ↔ fd' ∈ SelectLoop._x_list self ∨ (fd' = fd ∧ Z.land mode POLL_ERR ≠ 0)).
Proof.
  unfold SelectLoop.add_fd; simpl.
  destruct (truthy (Z.land mode POLL_IN)) eqn:Hi;
    destruct (truthy (Z.land mode POLL_OUT)) eqn:Ho;
    destruct (truthy (Z.land mode POLL_ERR)) eqn:He;
    (apply truthy_true in Hi || apply truthy_false in Hi);
    (apply truthy_true in Ho || apply truthy_false in Ho);
    (apply truthy_true in He || apply truthy_false in He);
    rewrite ?elem_of_union, ?elem_of_singleton; tauto.
Qed.

(** C10: the kqueue backend asks the kernel only about the read and write
    filters, one request for each of POLL_IN and POLL_OUT that the mode has
    ([add_fd] for the mode it is given, [modify_fd] deleting for the
    remembered mode and adding for the new one), and the select backend
    enters the descriptor only in the read, write and error sets, for
    POLL_IN, POLL_OUT and POLL_ERR.  So an [add_fd] whose mode has none of
    these bits, such as POLL_HUP or POLL_NVAL alone, sends the kernel
    nothing (kqueue) and leaves the three sets as they were (select). *)
Theorem native_interest_only_for_some_bits :
  (∀ fd mode fl e,
     e ∈ KqueueLoop.control_events fd mode fl ↔
     select.ident e = fd ∧ select.flags e = fl ∧
     ((select.filter e = select.KQ_FILTER_READ ∧ Z.land mode POLL_IN ≠ 0)
      ∨ (select.filter e = select.KQ_FILTER_WRITE ∧ Z.land mode POLL_OUT ≠ 0)))
  ∧ (∀ host self fd mode, ∃ sent,
       KqueueLoop._kqueue (KqueueLoop.add_fd host self fd mode).1
       = KqueueLoop._kqueue self ++ sent
       ∧ sent `prefix_of` KqueueLoop.control_events fd mode select.KQ_EV_ADD
       ∧ ((KqueueLoop.add_fd host self fd mode).2 = None
          → sent = KqueueLoop.control_events fd mode select.KQ_EV_ADD))
  ∧ (∀ host self fd mode, ∃ dels adds,
       KqueueLoop._kqueue (KqueueLoop.modify_fd host self fd mode).1
       = KqueueLoop._kqueue self ++ dels ++ adds
       ∧ dels `prefix_of`
           KqueueLoop.control_events fd (default 0 (KqueueLoop._fds self !! fd))
                                     select.KQ_EV_DELETE
       ∧ adds `prefix_of` KqueueLoop.control_events fd mode select.KQ_EV_ADD)
  ∧ (∀ host self fd mode,
       Z.land mode POLL_IN = 0 → Z.land mode POLL_OUT = 0 →
       KqueueLoop.add_fd host self fd mode
       = ({| KqueueLoop._kqueue := KqueueLoop._kqueue self;
             KqueueLoop._fds := <[fd:=mode]> (KqueueLoop._fds self) |}, None))
  ∧ (∀ self fd mode fd',
       (fd' ∈ SelectLoop._r_list (SelectLoop.add_fd self fd mode)
        ↔ fd' ∈ SelectLoop._r_list self ∨ (fd' = fd ∧ Z.land mode POLL_IN ≠ 0))
       ∧ (fd' ∈ SelectLoop._w_list (SelectLoop.add_fd self fd mode)
          ↔ fd' ∈ SelectLoop._w_list self ∨ (fd' = fd ∧ Z.land mode POLL_OUT ≠ 0))
       ∧ (fd' ∈ SelectLoop._x_list (SelectLoop.add_fd self fd mode)
          ↔ fd' ∈ SelectLoop._x_list self ∨ (fd' = fd ∧ Z.land mode POLL_ERR ≠ 0)))
  ∧ (∀ self fd mode,
       Z.land mode POLL_IN = 0 → Z.land mode POLL_OUT = 0 →
       Z.land mode POLL_ERR = 0 →
       SelectLoop.add_fd self fd mode = self)
  ∧ (∀ mode, mode ∈ [POLL_HUP; POLL_NVAL; Z.lor POLL_HUP POLL_NVAL] →
       Z.land mode POLL_IN = 0 ∧ Z.land mode POLL_OUT = 0
       ∧ Z.land mode POLL_ERR = 0).
Proof.
  split; [exact control_events_spec|].
  split; [exact kqueue_add_fd_sends|].
  split; [exact kqueue_modify_fd_sends|].
  split.
  { intros host self fd mode Hi Ho. unfold KqueueLoop.add_fd, KqueueLoop._control.
    by rewrite control_events_none. }
  split; [exact select_add_fd_member|].
  split; [exact select_add_fd_none|].
  intros mode Hm. rewrite !elem_of_cons, elem_of_nil in Hm.
  destruct Hm as [->|[->|[->|[]]]]; done.
Qed.

(** ** What the kqueue and select backends return from [poll] *)

Lemma land_lor_keeps (a y x : Z) : Z.land a x = x → Z.land (Z.lor a y) x = x.
Proof.
  intros H. apply Z.bits_inj'. intros n Hn.
  apply (f_equal (λ z, Z.testbit z n)) in H.
  rewrite Z.land_spec in H. rewrite Z.land_spec, Z.lor_spec.
  destruct (Z.testbit a n), (Z.testbit y n), (Z.testbit x n); done.
Qed.

Lemma land_lor_new (a x : Z) : Z.land (Z.lor a x) x = x.
Proof.
  apply Z.bits_inj'. intros n Hn. rewrite Z.land_spec, Z.lor_spec.
  destruct (Z.testbit a n), (Z.testbit x n); done.
Qed.

Lemma foldl_lor_has (fs : list Z) (acc x : Z) :
  Z.land acc x = x ∨ x ∈ fs → Z.land (foldl Z.lor acc fs) x = x.
Proof.
  revert acc. induction fs as [|f fs IH]; intros acc [H|H]; simpl.
  - done.
  - by apply elem_of_nil in H.
  - apply IH. left. by apply land_lor_keeps.
  - apply elem_of_cons in H as [->|H]; apply IH; [left|by right].
    apply land_lor_new.
Qed.

Lemma or_all_has (fs : list Z) (x : Z) : x ∈ fs → Z.land (or_all fs) x = x.
Proof. intros H. apply foldl_lor_has. by right. Qed.

Lemma flags_of_cons (fd : Z) (p : Z * Z) (reports : list (Z * Z)) :
  flags_of fd (p :: reports)
  = if decide (p.1 = fd) then p.2 :: flags_of fd reports else flags_of fd reports.
Proof. unfold flags_of. rewrite filter_cons. by case_decide. Qed.

Lemma flags_of_elem (fd fl : Z) (reports : list (Z * Z)) :
  fl ∈ flags_of fd reports ↔ (fd, fl) ∈ reports.
Proof.
  unfold flags_of. rewrite list_elem_of_fmap. split.
  - intros ([a b] & -> & H). apply list_elem_of_filter in H as [Ha H].
    simpl in Ha. by subst a.
  - intros H. exists (fd, fl). split; [done|]. by apply list_elem_of_filter.
Qed.

(** The dictionary after the merging loop, from any dictionary before it. *)
Lemma foldl_dict_or_lookup (reports : list (Z * Z)) (acc : gmap Z Z) (fd : Z) :
  foldl (λ res p, dict_or res p.1 p.2) acc reports !! fd
  = match flags_of fd reports with
    | [] => acc !! fd
    | fs => Some (foldl Z.lor (default POLL_NULL (acc !! fd)) fs)
    end.
Proof.
  revert acc. induction reports as [|[k v] reports IH]; intros acc; [done|].
  simpl foldl. rewrite IH, flags_of_cons. unfold dict_or at 1 2. simpl.
  case_decide as Hk.
  - subst k. rewrite lookup_insert_eq. simpl.
    by destruct (flags_of fd reports).
  - by rewrite lookup_insert_ne.
Qed.

Lemma merged_of_dict (reports : list (Z * Z)) :
  merged reports
         (map_to_list (foldl (λ res p, dict_or res p.1 p.2) ∅ reports)).
Proof.
  split; [apply NoDup_fst_map_to_list|].
  intros fd fl. rewrite elem_of_map_to_list, foldl_dict_or_lookup, lookup_empty.
  unfold or_all. simpl. destruct (flags_of fd reports) eqn:Hf.
  - split; [done|]. by intros [].
  - split.
    + intros [= <-]. done.
    + intros [_ ->]. done.
Qed.

Lemma kqueue_merge_reports (events : list select.kevent) (acc : gmap Z Z) :
  foldl KqueueLoop.merge_event acc events
  = foldl (λ res p, dict_or res p.1 p.2) acc (kqueue_reports events).
Proof.
  revert acc. induction events as [|e events IH]; intros acc; [done|].
  simpl. rewrite IH. unfold kqueue_reports. simpl.
  unfold KqueueLoop.merge_event, kqueue_report.
  destruct (select.filter e =? select.KQ_FILTER_READ); [done|].
  destruct (select.filter e =? select.KQ_FILTER_WRITE); done.
Qed.

Lemma select_merge_list_reports (flag : Z) (fds : list Z) (acc : gmap Z Z) :
  SelectLoop.merge_list flag acc fds
  = foldl (λ res p, dict_or res p.1 p.2) acc ((λ fd, (fd, flag)) <$> fds).
Proof.
  unfold SelectLoop.merge_list. revert acc.
  induction fds as [|fd fds IH]; intros acc; [done|]. simpl. by rewrite IH.
Qed.

Lemma select_merge_reports (r w x : list Z) :
  SelectLoop.merge r w x
  = foldl (λ res p, dict_or res p.1 p.2) ∅ (select_reports r w x).
Proof.
  unfold SelectLoop.merge, select_reports. simpl.
  by rewrite !foldl_app, !select_merge_list_reports.
Qed.

Lemma kqueue_reports_elem (events : list select.kevent) (fd fl : Z) :
  (fd, fl) ∈ kqueue_reports events ↔
  ∃ e, e ∈ events ∧ select.ident e = fd
       ∧ ((select.filter e = select.KQ_FILTER_READ ∧ fl = POLL_IN)
          ∨ (select.filter e = select.KQ_FILTER_WRITE ∧ fl = POLL_OUT)).
Proof.
  unfold kqueue_reports. rewrite list_elem_of_omap. split.
  - intros (e & He & H). exists e. split; [done|]. unfold kqueue_report in H.
    destruct (Z.eqb_spec (select.filter e) select.KQ_FILTER_READ) as [Hr|Hr].
    + injection H as <- <-. eauto.
    + destruct (Z.eqb_spec (select.filter e) select.KQ_FILTER_WRITE) as [Hw|Hw];
        [|done].
      injection H as <- <-. eauto.
  - intros (e & He & <- & H). exists e. split; [done|]. unfold kqueue_report.
    destruct H as [[Hr ->]|[Hw ->]]; [by rewrite Hr|by rewrite Hw].
Qed.

Lemma select_reports_elem (r w x : list Z) (fd fl : Z) :
  (fd, fl) ∈ select_reports r w x ↔
  (fd ∈ r ∧ fl = POLL_IN) ∨ (fd ∈ w ∧ fl = POLL_OUT) ∨ (fd ∈ x ∧ fl = POLL_ERR).
Proof.
  unfold select_reports. rewrite !elem_of_app, !list_elem_of_fmap.
  split.
  - intros [(y & [= -> ->] & H)|[(y & [= -> ->] & H)|(y & [= -> ->] & H)]]; eauto.
  - intros [[H ->]|[[H ->]|[H ->]]]; eauto 6.
Qed.

Lemma merged_read_write (reports l : list (Z * Z)) (fd : Z) :
  merged reports l → (fd, POLL_IN) ∈ reports → (fd, POLL_OUT) ∈ reports →
  ∃ fl, (fd, fl) ∈ l
        ∧ Z.land fl POLL_IN = POLL_IN ∧ Z.land fl POLL_OUT = POLL_OUT
        ∧ ∀ fl', (fd, fl') ∈ l → fl' = fl.
Proof.
  intros [_ Hl] Hi Ho. apply flags_of_elem in Hi, Ho.
  exists (or_all (flags_of fd reports)). repeat split.
  - apply Hl. split; [|done]. intros Hnil. rewrite Hnil in Hi.
    by apply elem_of_nil in Hi.
  - by apply or_all_has.
  - by apply or_all_has.
  - intros fl' H. by apply Hl in H as [_ ->].
Qed.

(** C7: on the kqueue and on the select backend, a [poll] that returns
    gives each descriptor at most once, exactly those with a report from the
    native call, each with the OR, from zero, of the flags of its reports; a
    descriptor reported for both reading and writing is there once, with
    POLL_IN and POLL_OUT both set. *)
Theorem poll_merges_reports_per_descriptor :
  (∀ host self now timeout l,
     KqueueLoop.poll host self now timeout = inr l →
     ∃ events,
       kqueue_wait host (KqueueLoop._kqueue self) now
                   (if timeout <? 0 then None else Some timeout) = inr events
       ∧ merged (kqueue_reports events) l
       ∧ ∀ fd,
           (∃ e, e ∈ events ∧ select.ident e = fd
                 ∧ select.filter e = select.KQ_FILTER_READ) →
           (∃ e, e ∈ events ∧ select.ident e = fd
                 ∧ select.filter e = select.KQ_FILTER_WRITE) →
           ∃ fl, (fd, fl) ∈ l
                 ∧ Z.land fl POLL_IN = POLL_IN ∧ Z.land fl POLL_OUT = POLL_OUT
                 ∧ ∀ fl', (fd, fl') ∈ l → fl' = fl)
  ∧ (∀ host self now timeout l,
       SelectLoop.poll host self now timeout = inr l →
       ∃ r w x,
         select_wait host (SelectLoop._r_list self) (SelectLoop._w_list self)
                     (SelectLoop._x_list self) now (Some timeout) = inr (r, w, x)
         ∧ merged (select_reports r w x) l
         ∧ ∀ fd, fd ∈ r → fd ∈ w →
             ∃ fl, (fd, fl) ∈ l
                   ∧ Z.land fl POLL_IN = POLL_IN ∧ Z.land fl POLL_OUT = POLL_OUT
                   ∧ ∀ fl', (fd, fl') ∈ l → fl' = fl).
Proof.
  split.
  - intros host self now timeout l. unfold KqueueLoop.poll.
    destruct (kqueue_wait _ _ _ _) as [ex|events]; [done|].
    intros [= <-]. exists events. split; [done|].
    unfold KqueueLoop.merge. rewrite kqueue_merge_reports.
    split; [apply merged_of_dict|].
    intros fd (e1 & H1 & Hi1 & Hf1) (e2 & H2 & Hi2 & Hf2).
    apply (merged_read_write (kqueue_reports events)); [apply merged_of_dict|..];
      apply kqueue_reports_elem; eauto 8.
  - intros host self now timeout l. unfold SelectLoop.poll.
    destruct (select_wait _ _ _ _ _ _) as [ex|[[r w] x]]; [done|].
    intros [= <-]. exists r, w, x. split; [done|].
    rewrite select_merge_reports. split; [apply merged_of_dict|].
    intros fd Hr Hw.
    apply (merged_read_write (select_reports r w x)); [apply merged_of_dict|..];
      apply select_reports_elem; eauto.
Qed.

(** ** The descriptor registry *)

Lemma do_call_registry (host : Host) (c : reg_call) (self : EventLoop.t) :
  EventLoop._fd_to_f (do_call host c self).1
  = net_step (EventLoop._fd_to_f self) c.
Proof.
  destruct c as [f mode|f|f mode]; simpl.
  - unfold EventLoop.add. by destruct (impl_add_fd _ _ _ _).
  - unfold EventLoop.remove.
    destruct (EventLoop._fd_to_f self !! fileno f) eqn:Hf.
    + by destruct (impl_remove_fd _ _ _).
    + simpl. by rewrite delete_id.
  - unfold EventLoop.modify. by destruct (impl_modify_fd _ _ _ _).
Qed.

Lemma do_calls_registry (host : Host) (cs : list reg_call) (self : EventLoop.t) :
  EventLoop._fd_to_f (do_calls host cs self)
  = net_effect (EventLoop._fd_to_f self) cs.
Proof.
  revert self. induction cs as [|c cs IH]; intros self; [done|].
  simpl. by rewrite IH, do_call_registry.
Qed.

Lemma net_step_untouched (m : gmap Z endpoint) (c : reg_call) (fd : Z) :
  touches fd c = false → net_step m c !! fd = m !! fd.
Proof.
  destruct c as [f mode|f|f mode]; simpl; [| |done];
    intros H%bool_decide_eq_false.
  - by rewrite lookup_insert_ne.
  - by rewrite lookup_delete_ne.
Qed.

(** A split of [c :: cs] at an add of [f] after which [fd] is not touched
    is at [c] itself or inside [cs]. *)
Lemma last_add_cons (c : reg_call) (cs : list reg_call) (fd : Z) (f : endpoint) :
  (∃ pre mode post, c :: cs = pre ++ RegAdd f mode :: post
                    ∧ Forall (λ c', touches fd c' = false) post)
  ↔ (∃ mode, c = RegAdd f mode ∧ Forall (λ c', touches fd c' = false) cs)
    ∨ (∃ pre mode post, cs = pre ++ RegAdd f mode :: post
                        ∧ Forall (λ c', touches fd c' = false) post).
Proof.
  split.
  - intros ([|c' pre] & mode & post & Heq & Hpost); simpl in Heq.
    + injection Heq as -> ->. eauto.
    + injection Heq as -> ->. right. eauto.
  - intros [(mode & -> & H)|(pre & mode & post & -> & H)].
    + by exists [], mode, cs.
    + by exists (c :: pre), mode, post.
Qed.

(** The registry maps [fd] to [f] exactly when the last call that adds or
    removes [fd] is an add of [f], or no call does and it mapped [fd] to
    [f] before. *)
Lemma net_effect_lookup (cs : list reg_call) (m : gmap Z endpoint)
                        (fd : Z) (f : endpoint) :
  net_effect m cs !! fd = Some f ↔
  (fileno f = fd
   ∧ ∃ pre mode post, cs = pre ++ RegAdd f mode :: post
                      ∧ Forall (λ c, touches fd c = false) post)
  ∨ (m !! fd = Some f ∧ Forall (λ c, touches fd c = false) cs).
Proof.
  revert m. induction cs as [|c cs IH]; intros m.
  - simpl. split.
    + intros H. right. by split.
    + intros [(_ & [|??] & ? & ? & ? & _)|[H _]]; done.
  - change (net_effect m (c :: cs)) with (net_effect (net_step m c) cs).
    rewrite IH, last_add_cons, Forall_cons. clear IH.
    destruct (touches fd c) eqn:Ht.
    + destruct c as [g mode|g|g mode]; simpl in Ht; [| |done];
        apply bool_decide_eq_true in Ht; simpl; subst fd.
      * rewrite lookup_insert_eq. naive_solver.
      * rewrite lookup_delete_eq. naive_solver.
    + rewrite net_step_untouched by done.
      destruct c as [g mode|g|g mode]; simpl in Ht;
        try apply bool_decide_eq_false in Ht; naive_solver.
Qed.

(** Without a double add or a remove of a missing descriptor, each add makes
    the registry one larger and each remove one smaller. *)
Lemma net_effect_size (cs : list reg_call) (m : gmap Z endpoint) :
  well_formed (dom m) cs →
  (size (net_effect m cs) + count_removes cs = size m + count_adds cs)%nat.
Proof.
  revert m. induction cs as [|c cs IH]; intros m Hwf; [done|].
  change (net_effect m (c :: cs)) with (net_effect (net_step m c) cs).
  destruct c as [f mode|f|f mode]; simpl in Hwf |- *.
  - destruct Hwf as [Hnew Hwf]. apply not_elem_of_dom in Hnew.
    rewrite IH by (by rewrite dom_insert_L).
    rewrite map_size_insert_None by done. lia.
  - destruct Hwf as [Hold Hwf]. apply elem_of_dom in Hold as [g Hg].
    assert (Hs : size m = S (size (delete (fileno f) m))).
    { rewrite <- (insert_delete_id m (fileno f) g) at 1 by done.
      by rewrite map_size_insert_None by apply lookup_delete_eq. }
    specialize (IH (delete (fileno f) m)).
    rewrite dom_delete_L in IH. specialize (IH Hwf). lia.
  - by apply IH.
Qed.

(** C9: after any sequence of add, remove and modify calls with no add of a
    registered descriptor and no remove of an unregistered one, the registry
    is the net effect of the calls in order: it maps a descriptor to an
    endpoint exactly when the last call adding or removing the descriptor is
    an add of that endpoint (or, for a descriptor no call adds or removes,
    when it did so before the calls), and it has grown by one for each add
    and shrunk by one for each remove; a modify leaves the registry as it
    was. *)
Theorem registry_is_net_effect_of_calls
    (host : Host) (self : EventLoop.t) (cs : list reg_call) :
  well_formed (dom (EventLoop._fd_to_f self)) cs →
  EventLoop._fd_to_f (do_calls host cs self)
  = net_effect (EventLoop._fd_to_f self) cs
  ∧ (size (EventLoop._fd_to_f (do_calls host cs self)) + count_removes cs
     = size (EventLoop._fd_to_f self) + count_adds cs)%nat
  ∧ (∀ fd f,
       EventLoop._fd_to_f (do_calls host cs self) !! fd = Some f ↔
       (fileno f = fd
        ∧ ∃ pre mode post, cs = pre ++ RegAdd f mode :: post
                           ∧ Forall (λ c, touches fd c = false) post)
       ∨ (EventLoop._fd_to_f self !! fd = Some f
          ∧ Forall (λ c, touches fd c = false) cs))
  ∧ (∀ s f mode,
       EventLoop._fd_to_f (EventLoop.modify host s f mode).1
       = EventLoop._fd_to_f s).
Proof.
  intros Hwf. split; [apply do_calls_registry|]. split.
  { rewrite do_calls_registry. by apply net_effect_size. }
  split.
  - intros fd f. rewrite do_calls_registry. apply net_effect_lookup.
  - intros s f mode. apply (do_call_registry host (RegModify f mode) s).
Qed.

(** ** The dispatch loop *)

Section Run.

Context (host : Host) (body : EventLoop.behaviour).

#[local] Abbreviation step := (EventLoop.run_step host body).
#[local] Abbreviation run := (EventLoop.run host body).

Lemma run_S (n : nat) (w : EventLoop.World) : run (S n) w = step (run n w).
Proof.
  revert w. induction n as [|n IH]; intros w; [done|]. simpl in *. by rewrite IH.
Qed.

Lemma run_plus (n m : nat) (w : EventLoop.World) :
  run (n + m) w = run m (run n w).
Proof. revert w. induction n as [|n IH]; intros w; [done|]. simpl. by rewrite IH. Qed.

Lemma step_finished (w : EventLoop.World) :
  finished (EventLoop.pc w) = true → step w = w.
Proof. unfold EventLoop.run_step. by destruct (EventLoop.pc w). Qed.

Lemma run_finished (n : nat) (w : EventLoop.World) :
  finished (EventLoop.pc w) = true → run n w = w.
Proof.
  intros H. induction n as [|n IH]; [done|]. simpl. by rewrite step_finished.
Qed.

Lemma run_finished_later (k n : nat) (w : EventLoop.World) :
  finished (EventLoop.pc (run k w)) = true → (k ≤ n)%nat → run n w = run k w.
Proof.
  intros H Hle. replace n with (k + (n - k))%nat by lia.
  rewrite run_plus. by apply run_finished.
Qed.

Lemma step_top_returns (w : EventLoop.World) :
  EventLoop.pc (EventLoop.step_top host w) = EventLoop.Returned
  ↔ EventLoop._ref_handlers (EventLoop.loop w) = [].
Proof.
  unfold EventLoop.step_top.
  destruct (EventLoop._ref_handlers (EventLoop.loop w)) as [|h refs]; [done|].
  split; [|done].
  destruct (EventLoop.poll _ _ _ _) as [e|evs]; [|done].
  destruct (is_os_io_error e); [|done]. by destruct (is_transient e).
Qed.

Lemma step_invoke_goes_on (i : nat) (h : handler) (w : EventLoop.World) :
  EventLoop.pc (EventLoop.step_invoke host body i h w) ≠ EventLoop.Returned.
Proof.
  unfold EventLoop.step_invoke.
  destruct (EventLoop.run_script _ _ _) as [self' [e|]]; [|done].
  by destruct (is_os_io_error e).
Qed.

Lemma step_flush_goes_on (w : EventLoop.World) :
  EventLoop.pc (EventLoop.step_flush w) ≠ EventLoop.Returned.
Proof.
  unfold EventLoop.step_flush.
  destruct (EventLoop._handlers_to_remove (EventLoop.loop w)); [done|].
  by destruct (EventLoop.flush _ _) as [hs [e|]].
Qed.

Lemma step_returns (w : EventLoop.World) :
  EventLoop.pc w ≠ EventLoop.Returned →
  EventLoop.pc (step w) = EventLoop.Returned →
  EventLoop.pc w = EventLoop.AtTop
  ∧ EventLoop._ref_handlers (EventLoop.loop w) = []
  ∧ EventLoop.loop (step w) = EventLoop.loop w.
Proof.
  unfold EventLoop.run_step. destruct (EventLoop.pc w) eqn:Hpc; intros Hn Hr.
  - apply step_top_returns in Hr as Href. repeat split; [done|].
    unfold EventLoop.step_top. by rewrite Href.
  - destruct (EventLoop._handlers (EventLoop.loop w) !! i).
    + by apply step_invoke_goes_on in Hr.
    + by apply step_flush_goes_on in Hr.
  - done.
  - by rewrite Hpc in Hr.
Qed.

(** C1: [run] returns exactly at a test of the [while] condition that finds
    the reference list empty.  A step from the top of a cycle returns if and
    only if the list is empty there; no step from inside a cycle returns;
    a [run] that has returned did so at the first top of a cycle with an
    empty reference list, with the loop object as it was there; and from
    such a point [run] has returned at every later step. *)
Theorem run_returns_at_first_empty_check :
  (∀ w, EventLoop.pc w = EventLoop.AtTop →
        (EventLoop.pc (step w) = EventLoop.Returned
         ↔ EventLoop._ref_handlers (EventLoop.loop w) = []))
  ∧ (∀ w i, EventLoop.pc w = EventLoop.AtDispatch i →
            EventLoop.pc (step w) ≠ EventLoop.Returned)
  ∧ (∀ w n, EventLoop.pc w = EventLoop.AtTop →
            EventLoop.pc (run n w) = EventLoop.Returned →
            ∃ k, (k < n)%nat
                 ∧ EventLoop.pc (run k w) = EventLoop.AtTop
                 ∧ EventLoop._ref_handlers (EventLoop.loop (run k w)) = []
                 ∧ EventLoop.loop (run n w) = EventLoop.loop (run k w)
                 ∧ ∀ j, (j < k)%nat →
                        EventLoop.pc (run j w) = EventLoop.AtTop →
                        EventLoop._ref_handlers (EventLoop.loop (run j w)) ≠ [])
  ∧ (∀ w k n, EventLoop.pc (run k w) = EventLoop.AtTop →
              EventLoop._ref_handlers (EventLoop.loop (run k w)) = [] →
              (k < n)%nat →
              EventLoop.pc (run n w) = EventLoop.Returned).
Proof.
  assert (Hlater : ∀ w k n,
             EventLoop.pc (run k w) = EventLoop.AtTop →
             EventLoop._ref_handlers (EventLoop.loop (run k w)) = [] →
             (k < n)%nat → EventLoop.pc (run n w) = EventLoop.Returned).
  { intros w k n Hpc Href Hlt.
    assert (Hr : EventLoop.pc (run (S k) w) = EventLoop.Returned).
    { rewrite run_S. unfold EventLoop.run_step. rewrite Hpc.
      by apply step_top_returns. }
    rewrite (run_finished_later (S k) n); [done| |lia]. by rewrite Hr. }
  split; [|split; [|split; [|exact Hlater]]].
  - intros w Hpc. unfold EventLoop.run_step. rewrite Hpc. apply step_top_returns.
  - intros w i Hpc Hr. apply step_returns in Hr as [Htop _]; congruence.
  - intros w n Hpc. induction n as [|n IH]; intros Hr.
    + simpl in Hr. congruence.
    + assert (Hn : EventLoop.pc (run n w) = EventLoop.Returned
                   ∨ EventLoop.pc (run n w) ≠ EventLoop.Returned)
        by (destruct (EventLoop.pc (run n w)); auto).
      destruct Hn as [Hn|Hn].
      * destruct (IH Hn) as (k & Hk & H1 & H2 & H3 & H4).
        exists k. repeat split; [lia|done..| |done].
        rewrite run_S, step_finished; [done|]. by rewrite Hn.
      * rewrite run_S in Hr. apply step_returns in Hr as (H1 & H2 & H3); [|done].
        exists n. repeat split; [lia|done..|by rewrite run_S|].
        intros j Hj Hjtop Hjref. apply Hn. by apply (Hlater w j n).
Qed.

(** *** Removing handlers *)

Lemma list_remove_Some (h : handler) (l l' : list handler) :
  list_remove h l = Some l' ↔ ∃ l1 l2, l = l1 ++ h :: l2 ∧ (h ∉ l1) ∧ l' = l1 ++ l2.
Proof.
  revert l'. induction l as [|y l IH]; intros l'; simpl.
  - split; [done|]. by intros ([|??] & ? & ? & _).
  - case_decide as Hy.
    + subst y. split.
      * intros [= <-]. exists [], l. repeat split. apply not_elem_of_nil.
      * intros ([|z l1] & l2 & Heq & Hnot & ->); simpl in *.
        -- by injection Heq as ->.
        -- injection Heq as <- _. exfalso. apply Hnot. apply elem_of_cons. by left.
    + split.
      * intros H. destruct (list_remove h l) as [l''|] eqn:Hr; [|done].
        injection H as <-. destruct (proj1 (IH l'') eq_refl) as (l1 & l2 & -> & Hnot & ->).
        exists (y :: l1), l2. repeat split. intros [?|?]%elem_of_cons; congruence.
      * intros ([|z l1] & l2 & Heq & Hnot & ->); simpl in *.
        -- injection Heq as -> _. done.
        -- injection Heq as <- ->.
           rewrite (proj2 (IH (l1 ++ l2))); [done|].
           exists l1, l2. repeat split. intros ?. apply Hnot. apply elem_of_cons. by right.
Qed.

Lemma list_remove_None (h : handler) (l : list handler) :
  list_remove h l = None ↔ h ∉ l.
Proof.
  induction l as [|y l IH]; simpl.
  - split; [intros _; apply not_elem_of_nil|done].
  - rewrite not_elem_of_cons. case_decide as Hy.
    + subst y. split; [done|]. by intros [? _].
    + destruct (list_remove h l); simpl; split; try done.
      * intros [_ H]. by apply IH in H.
      * intros _. split; [done|]. by apply IH.
Qed.

Lemma remove_handler_while_iterating (self : EventLoop.t) (h : handler) :
  EventLoop._iterating self = true →
  (EventLoop.remove_handler self h).2 = None
  ∧ EventLoop._handlers (EventLoop.remove_handler self h).1 = EventLoop._handlers self
  ∧ EventLoop._handlers_to_remove (EventLoop.remove_handler self h).1
    = EventLoop._handlers_to_remove self ++ [h]
  ∧ EventLoop._iterating (EventLoop.remove_handler self h).1 = true.
Proof.
  intros Hit. unfold EventLoop.remove_handler.
  case_decide; simpl; rewrite Hit; done.
Qed.

Lemma remove_handler_refs (self : EventLoop.t) (h : handler) :
  EventLoop._ref_handlers (EventLoop.remove_handler self h).1
  = default (EventLoop._ref_handlers self)
            (list_remove h (EventLoop._ref_handlers self)).
Proof.
  unfold EventLoop.remove_handler.
  case_decide as Hin; simpl.
  - destruct (EventLoop._iterating self); [done|].
    by destruct (list_remove h (EventLoop._handlers self)).
  - apply list_remove_None in Hin. rewrite Hin. simpl.
    destruct (EventLoop._iterating self); [done|].
    by destruct (list_remove h (EventLoop._handlers self)).
Qed.

Lemma flush_applies_all (pending hs hs' : list handler) :
  EventLoop.flush hs pending = (hs', None) →
  pending ++ hs' ≡ₚ hs ∧ hs' `sublist_of` hs.
Proof.
  revert hs. induction pending as [|h pending IH]; intros hs; simpl.
  - by intros [= ->].
  - destruct (list_remove h hs) as [hs1|] eqn:Hr; [|done].
    intros Hf. apply IH in Hf as [Hp Hs].
    apply list_remove_Some in Hr as (l1 & l2 & -> & _ & ->). split.
    + rewrite <- Permutation_middle. by constructor.
    + etrans; [exact Hs|]. apply sublist_app; [done|]. by apply sublist_cons.
Qed.

Lemma flush_raises_value_error (pending hs hs' : list handler) (e : exn) :
  EventLoop.flush hs pending = (hs', Some e) → e = value_error.
Proof.
  revert hs. induction pending as [|h pending IH]; intros hs; simpl; [done|].
  destruct (list_remove h hs) as [hs1|]; [apply IH|]. by intros [= _ <-].
Qed.

(** During the iteration an action leaves the flag set and the live list
    as it is, but for what [add_handler] appends. *)
Lemma perform_while_iterating (a : EventLoop.action) (self : EventLoop.t) :
  EventLoop._iterating self = true →
  EventLoop._iterating (EventLoop.perform host a self).1 = true
  ∧ ∃ added,
      EventLoop._handlers (EventLoop.perform host a self).1
      = EventLoop._handlers self ++ added
      ∧ (adds_no_handler a = true → added = []).
Proof.
  intros Hit. destruct a as [f mode|f|f mode|h ref|h|e]; simpl.
  - unfold EventLoop.add. destruct (impl_add_fd _ _ _ _); simpl.
    split; [done|]. exists []. by rewrite app_nil_r.
  - unfold EventLoop.remove. destruct (_ !! _); [destruct (impl_remove_fd _ _ _)|];
      simpl; (split; [done|]); exists []; by rewrite app_nil_r.
  - unfold EventLoop.modify. destruct (impl_modify_fd _ _ _ _); simpl.
    split; [done|]. exists []. by rewrite app_nil_r.
  - unfold EventLoop.add_handler. destruct ref; simpl; (split; [done|]);
      exists [h]; done.
  - destruct (remove_handler_while_iterating self h Hit) as (_ & H1 & _ & H2).
    split; [done|]. exists []. by rewrite app_nil_r.
  - split; [done|]. exists []. by rewrite app_nil_r.
Qed.

Lemma run_script_while_iterating (acts : list EventLoop.action) (self : EventLoop.t) :
  EventLoop._iterating self = true →
  EventLoop._iterating (EventLoop.run_script host acts self).1 = true
  ∧ ∃ added,
      EventLoop._handlers (EventLoop.run_script host acts self).1
      = EventLoop._handlers self ++ added
      ∧ (forallb adds_no_handler acts = true → added = []).
Proof.
  revert self. induction acts as [|a acts IH]; intros self Hit; simpl.
  - split; [done|]. exists []. by rewrite app_nil_r.
  - destruct (perform_while_iterating a self Hit) as (Hit' & added & Ha & Hnone).
    destruct (EventLoop.perform host a self) as [self' [e|]]; simpl in *.
    + split; [done|]. exists added. split; [done|].
      intros [H _]%andb_true_iff. auto.
    + destruct (IH self' Hit') as (Hit'' & added' & Ha' & Hnone').
      split; [done|]. exists (added ++ added'). rewrite Ha', Ha, app_assoc.
      split; [done|]. intros [H1 H2]%andb_true_iff.
      by rewrite Hnone, Hnone'.
Qed.

(** An action other than [add_handler] and [remove_handler] leaves the
    three handler lists and the flag alone. *)
Lemma perform_leaves_handlers (a : EventLoop.action) (self : EventLoop.t) :
  leaves_handlers a = true →
  EventLoop._handlers (EventLoop.perform host a self).1 = EventLoop._handlers self
  ∧ EventLoop._ref_handlers (EventLoop.perform host a self).1
    = EventLoop._ref_handlers self
  ∧ EventLoop._handlers_to_remove (EventLoop.perform host a self).1
    = EventLoop._handlers_to_remove self
  ∧ EventLoop._iterating (EventLoop.perform host a self).1
    = EventLoop._iterating self.
Proof.
  destruct a as [f mode|f|f mode|h ref|h|e]; simpl; try done; intros _.
  - unfold EventLoop.add. by destruct (impl_add_fd _ _ _ _).
  - unfold EventLoop.remove.
    destruct (_ !! _); [destruct (impl_remove_fd _ _ _)|]; done.
  - unfold EventLoop.modify. by destruct (impl_modify_fd _ _ _ _).
Qed.

Lemma run_script_leaves_handlers (acts : list EventLoop.action) (self : EventLoop.t) :
  forallb leaves_handlers acts = true →
  EventLoop._handlers (EventLoop.run_script host acts self).1 = EventLoop._handlers self
  ∧ EventLoop._ref_handlers (EventLoop.run_script host acts self).1
    = EventLoop._ref_handlers self
  ∧ EventLoop._handlers_to_remove (EventLoop.run_script host acts self).1
    = EventLoop._handlers_to_remove self
  ∧ EventLoop._iterating (EventLoop.run_script host acts self).1
    = EventLoop._iterating self.
Proof.
  revert self. induction acts as [|a acts IH]; intros self; simpl; [done|].
  intros [Ha Hacts]%andb_true_iff.
  destruct (perform_leaves_handlers a self Ha) as (H1 & H2 & H3 & H4).
  destruct (EventLoop.perform host a self) as [self' [e|]]; simpl in *; [done|].
  destruct (IH self' Hacts) as (H1' & H2' & H3' & H4'). repeat split; congruence.
Qed.

(** While a handler is called the flag stays set and the live list only
    grows, by what the handler gives to [add_handler]. *)
Lemma step_while_iterating (w : EventLoop.World) (i : nat) (h : handler) :
  EventLoop.pc w = EventLoop.AtDispatch i →
  EventLoop._handlers (EventLoop.loop w) !! i = Some h →
  EventLoop._iterating (EventLoop.loop w) = true →
  EventLoop._iterating (EventLoop.loop (step w)) = true
  ∧ ∃ added,
      EventLoop._handlers (EventLoop.loop (step w))
      = EventLoop._handlers (EventLoop.loop w) ++ added
      ∧ (forallb adds_no_handler (body h (EventLoop.events w) w) = true →
         added = []).
Proof.
  intros Hpc Hh Hit.
  unfold EventLoop.run_step, EventLoop.step_invoke. rewrite Hpc, Hh.
  destruct (run_script_while_iterating (body h (EventLoop.events w) w)
              (EventLoop.loop w) Hit) as (Hit' & added & Ha & Hnone).
  destruct (EventLoop.run_script _ _ _) as [self' [e|]]; simpl in *.
  - destruct (is_os_io_error e); simpl; eauto.
  - eauto.
Qed.

(** The flush goes through when the pending list, counted with
    repetitions, is contained in the live list. *)
Lemma flush_succeeds (pending hs : list handler) :
  pending ⊆+ hs → ∃ hs', EventLoop.flush hs pending = (hs', None).
Proof.
  revert hs. induction pending as [|h pending IH]; intros hs Hsub; simpl; [eauto|].
  destruct (list_remove h hs) as [hs1|] eqn:Hr.
  - apply IH. apply list_remove_Some in Hr as (l1 & l2 & -> & _ & ->).
    rewrite <- (Permutation_middle l1 l2 h) in Hsub.
    by apply (submseteq_app_inv_l _ _ [h]).
  - exfalso. apply list_remove_None in Hr. apply Hr.
    apply (elem_of_submseteq (h :: pending)); [apply elem_of_cons; by left|done].
Qed.

(** C2, as the code has it: while the loop iterates, [remove_handler]
    leaves the live list alone and appends the handler to the pending list;
    in either state it drops the handler's first occurrence from the
    reference list at once; once the iteration has gone through the live
    list, the flush, when the pending list counted with repetitions is
    contained in the live list, removes every pending handler from the live
    list, clears the pending list and resets the flag, and otherwise leaves
    [run] with a [ValueError] and the pending list as it was; and over any
    number of handler calls of one iteration the flag stays set and the
    live list is neither shortened nor reordered: it grows at its end by
    what the handlers give to [add_handler], and is unchanged when they call
    no [add_handler]. *)
Theorem removals_wait_for_the_end_of_the_iteration :
  (∀ self h,
     EventLoop._iterating self = true →
     (EventLoop.remove_handler self h).2 = None
     ∧ EventLoop._handlers (EventLoop.remove_handler self h).1
       = EventLoop._handlers self
     ∧ EventLoop._handlers_to_remove (EventLoop.remove_handler self h).1
       = EventLoop._handlers_to_remove self ++ [h])
  ∧ (∀ self h,
       (h ∉ EventLoop._ref_handlers self →
        EventLoop._ref_handlers (EventLoop.remove_handler self h).1
        = EventLoop._ref_handlers self)
       ∧ (h ∈ EventLoop._ref_handlers self →
          ∃ l1 l2,
            EventLoop._ref_handlers self = l1 ++ h :: l2 ∧ (h ∉ l1)
            ∧ EventLoop._ref_handlers (EventLoop.remove_handler self h).1
              = l1 ++ l2))
  ∧ (∀ w i,
       EventLoop.pc w = EventLoop.AtDispatch i →
       EventLoop._handlers (EventLoop.loop w) !! i = None →
       EventLoop._handlers_to_remove (EventLoop.loop w)
       ⊆+ EventLoop._handlers (EventLoop.loop w) →
       ∃ hs,
         step w
         = {| EventLoop.loop :=
                EventLoop.set_iterating false
                  (EventLoop.set_handlers_to_remove []
                     (EventLoop.set_handlers hs (EventLoop.loop w)));
              EventLoop.clock := EventLoop.clock w;
              EventLoop.events := EventLoop.events w;
              EventLoop.pc := EventLoop.AtTop;
              EventLoop.trace := EventLoop.trace w |}
         ∧ EventLoop._handlers_to_remove (EventLoop.loop w) ++ hs
           ≡ₚ EventLoop._handlers (EventLoop.loop w)
         ∧ hs `sublist_of` EventLoop._handlers (EventLoop.loop w))
  ∧ (∀ w i,
       EventLoop.pc w = EventLoop.AtDispatch i →
       EventLoop._handlers (EventLoop.loop w) !! i = None →
       ¬ (EventLoop._handlers_to_remove (EventLoop.loop w)
          ⊆+ EventLoop._handlers (EventLoop.loop w)) →
       EventLoop.pc (step w) = EventLoop.Escaped value_error
       ∧ EventLoop._handlers_to_remove (EventLoop.loop (step w))
         = EventLoop._handlers_to_remove (EventLoop.loop w))
  ∧ (∀ w n,
       EventLoop._iterating (EventLoop.loop w) = true →
       (∀ k, (k < n)%nat →
             ∃ i h, EventLoop.pc (run k w) = EventLoop.AtDispatch i
                    ∧ EventLoop._handlers (EventLoop.loop (run k w)) !! i = Some h) →
       EventLoop._iterating (EventLoop.loop (run n w)) = true
       ∧ ∃ added,
           EventLoop._handlers (EventLoop.loop (run n w))
           = EventLoop._handlers (EventLoop.loop w) ++ added
           ∧ ((∀ k i h,
                 (k < n)%nat →
                 EventLoop.pc (run k w) = EventLoop.AtDispatch i →
                 EventLoop._handlers (EventLoop.loop (run k w)) !! i = Some h →
                 forallb adds_no_handler
                         (body h (EventLoop.events (run k w)) (run k w)) = true) →
              added = [])).
Proof.
  split; [|split; [|split; [|split]]].
  - intros self h Hit.
    destruct (remove_handler_while_iterating self h Hit) as (H1 & H2 & H3 & _).
    done.
  - intros self h. rewrite remove_handler_refs. split.
    + intros Hnot%list_remove_None. by rewrite Hnot.
    + intros Hin.
      destruct (list_remove h (EventLoop._ref_handlers self)) as [l'|] eqn:Hr.
      * apply list_remove_Some in Hr as (l1 & l2 & H1 & H2 & H3). eauto.
      * by apply list_remove_None in Hr.
  - intros w i Hpc Hend Hsub.
    destruct (flush_succeeds _ _ Hsub) as [hs Hflush]. exists hs.
    split; [|by apply flush_applies_all].
    unfold EventLoop.run_step, EventLoop.step_flush. rewrite Hpc, Hend.
    destruct (EventLoop._handlers_to_remove (EventLoop.loop w)) eqn:Hp.
    + simpl in Hflush. injection Hflush as <-.
      unfold EventLoop.set_iterating, EventLoop.set_handlers_to_remove; simpl.
      by rewrite Hp.
    + by rewrite Hflush.
  - intros w i Hpc Hend Hnot.
    unfold EventLoop.run_step, EventLoop.step_flush. rewrite Hpc, Hend.
    destruct (EventLoop._handlers_to_remove (EventLoop.loop w)) as [|p ps] eqn:Hp.
    + exfalso. apply Hnot. apply submseteq_nil_l.
    + destruct (EventLoop.flush (EventLoop._handlers (EventLoop.loop w)) (p :: ps))
        as [hs [e|]] eqn:Hflush.
      * apply flush_raises_value_error in Hflush as ->. by split.
      * exfalso. apply Hnot. apply flush_applies_all in Hflush as [Hperm _].
        rewrite <- Hperm. by apply submseteq_inserts_r.
  - intros w n Hit. induction n as [|n IH]; intros Hcalls.
    + split; [done|]. exists []. by rewrite app_nil_r.
    + destruct IH as (Hit' & added & Ha & Hnone); [intros k Hk; apply Hcalls; lia|].
      destruct (Hcalls n) as (i & h & Hpc & Hh); [lia|].
      destruct (step_while_iterating (run n w) i h Hpc Hh Hit')
        as (Hit'' & added' & Ha' & Hnone').
      rewrite run_S. split; [done|].
      exists (added ++ added'). rewrite Ha', Ha, app_assoc. split; [done|].
      intros Hquiet. rewrite Hnone, Hnone'; [done| |].
      * by apply (Hquiet n i h); [lia|..].
      * intros k j g Hk. apply Hquiet. lia.
Qed.

Lemma run_script_app (pre rest : list EventLoop.action) (self : EventLoop.t) :
  EventLoop.run_script host (pre ++ rest) self
  = match EventLoop.run_script host pre self with
    | (self', Some e) => (self', Some e)
    | (self', None) => EventLoop.run_script host rest self'
    end.
Proof.
  revert self. induction pre as [|a pre IH]; intros self; simpl; [done|].
  destruct (EventLoop.perform host a self) as [self' [e|]]; [done|]. apply IH.
Qed.

(** A call of a handler changes the loop object as the handler's actions
    do, and is seen in the trace. *)
Lemma step_invoke_facts (i : nat) (h : handler) (w : EventLoop.World) :
  EventLoop.loop (EventLoop.step_invoke host body i h w)
  = (EventLoop.run_script host (body h (EventLoop.events w) w) (EventLoop.loop w)).1
  ∧ EventLoop.events (EventLoop.step_invoke host body i h w) = EventLoop.events w
  ∧ ∃ tl, EventLoop.trace (EventLoop.step_invoke host body i h w)
          = EventLoop.trace w ++ EventLoop.ObsInvoke h (EventLoop.events w) :: tl.
Proof.
  unfold EventLoop.step_invoke.
  destruct (EventLoop.run_script _ _ _) as [self' [e|]]; simpl.
  - destruct (is_os_io_error e); simpl; repeat split;
      rewrite <- ?app_assoc; simpl; eauto.
  - repeat split. eauto.
Qed.

(** While the flag is set an action only appends to the pending list. *)
Lemma perform_pending_grows (a : EventLoop.action) (self : EventLoop.t) :
  EventLoop._iterating self = true →
  ∃ more, EventLoop._handlers_to_remove (EventLoop.perform host a self).1
          = EventLoop._handlers_to_remove self ++ more.
Proof.
  intros Hit. destruct a as [f mode|f|f mode|h ref|h|e]; simpl.
  - unfold EventLoop.add. destruct (impl_add_fd _ _ _ _); simpl.
    exists []. by rewrite app_nil_r.
  - unfold EventLoop.remove. destruct (_ !! _); [destruct (impl_remove_fd _ _ _)|];
      simpl; exists []; by rewrite app_nil_r.
  - unfold EventLoop.modify. destruct (impl_modify_fd _ _ _ _); simpl.
    exists []. by rewrite app_nil_r.
  - unfold EventLoop.add_handler. destruct ref; simpl; exists [];
      by rewrite app_nil_r.
  - destruct (remove_handler_while_iterating self h Hit) as (_ & _ & H & _).
    by exists [h].
  - exists []. by rewrite app_nil_r.
Qed.

Lemma run_script_pending_grows (acts : list EventLoop.action) (self : EventLoop.t) :
  EventLoop._iterating self = true →
  ∃ more, EventLoop._handlers_to_remove (EventLoop.run_script host acts self).1
          = EventLoop._handlers_to_remove self ++ more.
Proof.
  revert self. induction acts as [|a acts IH]; intros self Hit; simpl.
  - exists []. by rewrite app_nil_r.
  - destruct (perform_pending_grows a self Hit) as [more Hm].
    destruct (perform_while_iterating a self Hit) as (Hit' & _).
    destruct (EventLoop.perform host a self) as [self' [e|]]; simpl in *; [eauto|].
    destruct (IH self' Hit') as [more' Hm'].
    exists (more ++ more'). by rewrite Hm', Hm, app_assoc.
Qed.

(** C3, as the code has it: when the first of two handlers calls
    [remove_handler] on the second, the removal is deferred: the second
    handler goes on the pending list and stays where it is in the live
    list; if the call of the first handler does not leave [run] through an
    exception, the second handler is still called in that cycle, after the
    first and with the same events; and if moreover the two handlers
    otherwise leave the handler lists alone and the call of the second does
    not leave [run] either, the flush at the end of the cycle takes the
    second handler out of the live list, so that the next cycle starts with
    the first handler alone. *)
Theorem removed_handler_runs_once_more
    (w : EventLoop.World) (h1 h2 : handler) (pre post : list EventLoop.action) :
  EventLoop.pc w = EventLoop.AtDispatch 0 →
  EventLoop._iterating (EventLoop.loop w) = true →
  EventLoop._handlers (EventLoop.loop w) = [h1; h2] →
  body h1 (EventLoop.events w) w = pre ++ EventLoop.CallRemoveHandler h2 :: post →
  (EventLoop.run_script host pre (EventLoop.loop w)).2 = None →
  ((∃ added, EventLoop._handlers (EventLoop.loop (run 1 w)) = [h1; h2] ++ added)
   ∧ h2 ∈ EventLoop._handlers_to_remove (EventLoop.loop (run 1 w)))
  ∧ (EventLoop.pc (run 1 w) = EventLoop.AtDispatch 1 →
     ∃ tl1 tl2, EventLoop.trace (run 2 w)
                = EventLoop.trace w
                  ++ EventLoop.ObsInvoke h1 (EventLoop.events w) :: tl1
                  ++ EventLoop.ObsInvoke h2 (EventLoop.events w) :: tl2)
  ∧ (h1 ≠ h2 →
     EventLoop._handlers_to_remove (EventLoop.loop w) = [] →
     forallb leaves_handlers pre = true →
     forallb leaves_handlers post = true →
     EventLoop.pc (run 1 w) = EventLoop.AtDispatch 1 →
     forallb leaves_handlers (body h2 (EventLoop.events (run 1 w)) (run 1 w)) = true →
     EventLoop.pc (run 2 w) = EventLoop.AtDispatch 2 →
     (EventLoop._handlers (EventLoop.loop (run 1 w)) = [h1; h2]
      ∧ EventLoop._handlers_to_remove (EventLoop.loop (run 1 w)) = [h2])
     ∧ (EventLoop.pc (run 3 w) = EventLoop.AtTop
        ∧ EventLoop._handlers (EventLoop.loop (run 3 w)) = [h1]
        ∧ EventLoop._handlers_to_remove (EventLoop.loop (run 3 w)) = []
        ∧ EventLoop._iterating (EventLoop.loop (run 3 w)) = false)).
Proof.
  intros Hpc Hit Hhs Hb1 Hreach.
  (* the first handler *)
  assert (Hs1 : run 1 w = EventLoop.step_invoke host body 0 h1 w).
  { simpl. unfold EventLoop.run_step. by rewrite Hpc, Hhs. }
  destruct (step_invoke_facts 0 h1 w) as (Hl1 & He1 & tl1 & Ht1).
  rewrite <- Hs1 in Hl1, He1, Ht1.
  (* the loop object after the actions before the call, after the call and
     after the actions that follow it *)
  assert (Hparts : ∃ selfp selfr,
             EventLoop.run_script host pre (EventLoop.loop w) = (selfp, None)
             ∧ EventLoop.remove_handler selfp h2 = (selfr, None)
             ∧ EventLoop._iterating selfp = true
             ∧ EventLoop._iterating selfr = true
             ∧ EventLoop._handlers selfr = EventLoop._handlers selfp
             ∧ EventLoop._handlers_to_remove selfr
               = EventLoop._handlers_to_remove selfp ++ [h2]
             ∧ EventLoop.loop (run 1 w) = (EventLoop.run_script host post selfr).1).
  { destruct (run_script_while_iterating pre (EventLoop.loop w) Hit) as (Hitp & _).
    rewrite Hl1, Hb1, run_script_app.
    destruct (EventLoop.run_script host pre (EventLoop.loop w)) as [selfp rp].
    simpl in Hreach, Hitp. subst rp. simpl.
    destruct (remove_handler_while_iterating selfp h2 Hitp) as (Hr & Hrh & Hrp & Hri).
    destruct (EventLoop.remove_handler selfp h2) as [selfr rr] eqn:Hrem.
    simpl in Hr, Hrh, Hrp, Hri. subst rr. exists selfp, selfr.
    repeat split; done. }
  destruct Hparts as (selfp & selfr & Hp & Hr & Hitp & Hitr & Hrh & Hrp & Hloop).
  assert (Hlive : ∃ added,
             EventLoop._handlers (EventLoop.loop (run 1 w)) = [h1; h2] ++ added).
  { destruct (run_script_while_iterating pre (EventLoop.loop w) Hit)
      as (_ & a1 & Ha1 & _).
    destruct (run_script_while_iterating post selfr Hitr) as (_ & a2 & Ha2 & _).
    rewrite Hp in Ha1. simpl in Ha1.
    exists (a1 ++ a2). by rewrite Hloop, Ha2, Hrh, Ha1, Hhs, <- app_assoc. }
  split; [|split].
  - split; [done|].
    destruct (run_script_pending_grows post selfr Hitr) as [m2 Hm2].
    rewrite Hloop, Hm2, Hrp. apply elem_of_app. left. apply elem_of_app. right.
    by apply list_elem_of_singleton.
  - (* the second handler is called *)
    intros Hpc1. destruct Hlive as [added Hlive].
    assert (Hs2 : run 2 w = EventLoop.step_invoke host body 1 h2 (run 1 w)).
    { rewrite (run_S 1 w). unfold EventLoop.run_step. by rewrite Hpc1, Hlive. }
    destruct (step_invoke_facts 1 h2 (run 1 w)) as (_ & _ & tl2 & Ht2).
    rewrite <- Hs2 in Ht2.
    exists tl1, tl2. rewrite Ht2, Ht1, He1, <- app_assoc. done.
  - (* the flush *)
    intros Hne Hpend Hpre Hpost Hpc1 Hb2 Hpc2.
    assert (Hw1 : EventLoop._handlers (EventLoop.loop (run 1 w)) = [h1; h2]
                  ∧ EventLoop._handlers_to_remove (EventLoop.loop (run 1 w)) = [h2]).
    { destruct (run_script_leaves_handlers pre (EventLoop.loop w) Hpre)
        as (Hp1 & _ & Hp3 & _).
      rewrite Hp in Hp1, Hp3. simpl in Hp1, Hp3.
      destruct (run_script_leaves_handlers post selfr Hpost) as (Hq1 & _ & Hq3 & _).
      rewrite Hloop, Hq1, Hq3, Hrh, Hrp, Hp1, Hp3, Hhs, Hpend. done. }
    destruct Hw1 as [Hhs1 Hpend1]. split; [done|].
    assert (Hs2 : run 2 w = EventLoop.step_invoke host body 1 h2 (run 1 w)).
    { rewrite (run_S 1 w). unfold EventLoop.run_step. by rewrite Hpc1, Hhs1. }
    destruct (step_invoke_facts 1 h2 (run 1 w)) as (Hl2 & _).
    rewrite <- Hs2 in Hl2.
    destruct (run_script_leaves_handlers _ (EventLoop.loop (run 1 w)) Hb2)
      as (Hk1 & _ & Hk3 & _).
    rewrite <- Hl2 in Hk1, Hk3.
    rewrite (run_S 2 w). unfold EventLoop.run_step.
    rewrite Hpc2, Hk1, Hhs1. change ([h1; h2] !! 2%nat) with (@None handler).
    unfold EventLoop.step_flush. rewrite Hk3, Hpend1, Hk1, Hhs1. simpl.
    destruct (decide (h1 = h2)) as [|_]; [done|].
    destruct (decide (h2 = h2)) as [_|]; [|done]. done.
Qed.

(** *** Exceptions inside [run] *)

Lemma is_transient_errno (e : exn) :
  is_transient e = true
  ↔ errno_from_exception e = PyInt EPIPE ∨ errno_from_exception e = PyInt EINTR.
Proof.
  unfold is_transient, pyval_is. rewrite orb_true_iff.
  destruct (errno_from_exception e) as [|z|s].
  - split; [intros [|]; done|intros [|]; done].
  - rewrite !Z.eqb_eq. split; (intros [H|H]; [left|right]; congruence).
  - split; [intros [|]; done|intros [|]; done].
Qed.

(** What a step lets out is not an [OSError] or [IOError]. *)
Lemma step_escapes_other_class (w : EventLoop.World) (e : exn) :
  finished (EventLoop.pc w) = false →
  EventLoop.pc (step w) = EventLoop.Escaped e →
  is_os_io_error e = false.
Proof.
  unfold EventLoop.run_step. destruct (EventLoop.pc w) eqn:Hpc; try done; intros _.
  - unfold EventLoop.step_top.
    destruct (EventLoop._ref_handlers (EventLoop.loop w)); [done|].
    destruct (EventLoop.poll _ _ _ _) as [e'|evs]; [|done].
    destruct (is_os_io_error e') eqn:Hc.
    + by destruct (is_transient e').
    + simpl. by intros [= <-].
  - destruct (EventLoop._handlers (EventLoop.loop w) !! i).
    + unfold EventLoop.step_invoke.
      destruct (EventLoop.run_script _ _ _) as [self' [e'|]]; [|done].
      destruct (is_os_io_error e') eqn:Hc; [done|]. simpl. by intros [= <-].
    + unfold EventLoop.step_flush.
      destruct (EventLoop._handlers_to_remove (EventLoop.loop w)); [done|].
      destruct (EventLoop.flush _ _) as [hs [e'|]] eqn:Hf; [|done].
      apply flush_raises_value_error in Hf as ->. simpl. by intros [= <-].
Qed.

(** C4, as the code has it: [run] catches the [OSError]s and [IOError]s
    that the poll or a handler raises, and only those.  Whatever leaves
    [run] as an exception is of another class; such an error from the poll
    is logged and [run] goes on, and from a handler it is logged and the
    iteration goes on with the next handler; an exception of another class,
    from the poll or from a handler, leaves [run]. *)
Theorem run_catches_os_and_io_errors_only :
  (∀ w n e,
     finished (EventLoop.pc w) = false →
     EventLoop.pc (run n w) = EventLoop.Escaped e →
     is_os_io_error e = false)
  ∧ (∀ w e,
       EventLoop.pc w = EventLoop.AtTop →
       EventLoop._ref_handlers (EventLoop.loop w) ≠ [] →
       EventLoop.poll host (EventLoop.loop w) (EventLoop.clock w) 1 = inl e →
       if is_os_io_error e
       then finished (EventLoop.pc (step w)) = false
       else EventLoop.pc (step w) = EventLoop.Escaped e)
  ∧ (∀ w i h e,
       EventLoop.pc w = EventLoop.AtDispatch i →
       EventLoop._handlers (EventLoop.loop w) !! i = Some h →
       (EventLoop.run_script host (body h (EventLoop.events w) w)
                             (EventLoop.loop w)).2 = Some e →
       if is_os_io_error e
       then EventLoop.pc (step w) = EventLoop.AtDispatch (S i)
            ∧ EventLoop.trace (step w)
              = EventLoop.trace w
                ++ [EventLoop.ObsInvoke h (EventLoop.events w);
                    EventLoop.ObsLogError e; EventLoop.ObsTraceback]
       else EventLoop.pc (step w) = EventLoop.Escaped e).
Proof.
  split; [|split].
  - intros w n e Hw. induction n as [|n IH]; intros He.
    + simpl in He. rewrite He in Hw. done.
    + rewrite run_S in He.
      destruct (finished (EventLoop.pc (run n w))) eqn:Hf.
      * rewrite step_finished in He by done. auto.
      * by apply (step_escapes_other_class (run n w)).
  - intros w e Hpc Href Hpoll.
    unfold EventLoop.run_step, EventLoop.step_top. rewrite Hpc, Hpoll.
    destruct (EventLoop._ref_handlers (EventLoop.loop w)); [done|].
    destruct (is_os_io_error e); [|done]. by destruct (is_transient e).
  - intros w i h e Hpc Hh Hr.
    unfold EventLoop.run_step, EventLoop.step_invoke. rewrite Hpc, Hh.
    destruct (EventLoop.run_script _ _ _) as [self' r]. simpl in Hr. subst r.
    destruct (is_os_io_error e); [|done]. simpl. by rewrite <- app_assoc.
Qed.

(** C5, as the code has it: when the poll fails with an [OSError] or
    [IOError] whose errno is EINTR or EPIPE, [run] logs it at debug level
    and goes on with the same cycle: it sets the flag and enters the
    iteration over the handlers, with [events] as the last successful poll
    left it, so that the first handler of the live list is called before
    any further poll. *)
Theorem transient_poll_error_still_dispatches (w : EventLoop.World) (e : exn) :
  EventLoop.pc w = EventLoop.AtTop →
  EventLoop._ref_handlers (EventLoop.loop w) ≠ [] →
  EventLoop.poll host (EventLoop.loop w) (EventLoop.clock w) 1 = inl e →
  is_os_io_error e = true →
  errno_from_exception e = PyInt EINTR ∨ errno_from_exception e = PyInt EPIPE →
  step w
  = {| EventLoop.loop := EventLoop.set_iterating true (EventLoop.loop w);
       EventLoop.clock := S (EventLoop.clock w);
       EventLoop.events := EventLoop.events w;
       EventLoop.pc := EventLoop.AtDispatch 0;
       EventLoop.trace := EventLoop.trace w ++ [EventLoop.ObsLogDebug e] |}
  ∧ ∀ h, EventLoop._handlers (EventLoop.loop w) !! 0%nat = Some h →
         EventLoop.clock (run 2 w) = S (EventLoop.clock w)
         ∧ ∃ tl, EventLoop.trace (run 2 w)
                 = EventLoop.trace w
                   ++ EventLoop.ObsLogDebug e
                   :: EventLoop.ObsInvoke h (EventLoop.events w) :: tl.
Proof.
  intros Hpc Href Hpoll Hc Herrno.
  assert (Ht : is_transient e = true) by (apply is_transient_errno; tauto).
  assert (H1 : step w
               = {| EventLoop.loop := EventLoop.set_iterating true (EventLoop.loop w);
                    EventLoop.clock := S (EventLoop.clock w);
                    EventLoop.events := EventLoop.events w;
                    EventLoop.pc := EventLoop.AtDispatch 0;
                    EventLoop.trace :=
                      EventLoop.trace w ++ [EventLoop.ObsLogDebug e] |}).
  { unfold EventLoop.run_step, EventLoop.step_top. rewrite Hpc, Hpoll, Hc, Ht.
    by destruct (EventLoop._ref_handlers (EventLoop.loop w)). }
  split; [done|]. intros h Hh.
  change (run 2 w) with (step (step w)). rewrite H1.
  match goal with
  | |- context [step ?w1] =>
      replace (step w1) with (EventLoop.step_invoke host body 0 h w1)
        by (unfold EventLoop.run_step; simpl; by rewrite Hh)
  end.
  unfold EventLoop.step_invoke. simpl.
  destruct (EventLoop.run_script _ _ _) as [self' [e'|]]; simpl.
  - destruct (is_os_io_error e'); simpl; (split; [done|]);
      rewrite <- ?app_assoc; simpl; eauto.
  - split; [done|]. rewrite <- ?app_assoc; simpl; eauto.
Qed.

(** C6, as the code has it: when the poll fails with an [OSError] or
    [IOError] whose errno is neither EINTR nor EPIPE, [run] logs it at error
    level with a traceback and starts the next cycle at once: the loop
    object is left as it is, so no handler is called, no pending removal is
    applied and the flag is not touched in that cycle; [run] does not
    return, and polls again. *)
Theorem other_poll_error_skips_the_cycle (w : EventLoop.World) (e : exn) :
  EventLoop.pc w = EventLoop.AtTop →
  EventLoop._ref_handlers (EventLoop.loop w) ≠ [] →
  EventLoop.poll host (EventLoop.loop w) (EventLoop.clock w) 1 = inl e →
  is_os_io_error e = true →
  errno_from_exception e ≠ PyInt EINTR →
  errno_from_exception e ≠ PyInt EPIPE →
  step w
  = {| EventLoop.loop := EventLoop.loop w;
       EventLoop.clock := S (EventLoop.clock w);
       EventLoop.events := EventLoop.events w;
       EventLoop.pc := EventLoop.AtTop;
       EventLoop.trace :=
         EventLoop.trace w ++ [EventLoop.ObsLogError e; EventLoop.ObsTraceback] |}
  ∧ EventLoop.pc (run 2 w) ≠ EventLoop.Returned
  ∧ EventLoop.clock (run 2 w) = S (S (EventLoop.clock w)).
Proof.
  intros Hpc Href Hpoll Hc Hintr Hpipe.
  assert (Ht : is_transient e = false).
  { destruct (is_transient e) eqn:Ht; [|done].
    apply is_transient_errno in Ht. tauto. }
  assert (H1 : step w
               = {| EventLoop.loop := EventLoop.loop w;
                    EventLoop.clock := S (EventLoop.clock w);
                    EventLoop.events := EventLoop.events w;
                    EventLoop.pc := EventLoop.AtTop;
                    EventLoop.trace :=
                      EventLoop.trace w
                      ++ [EventLoop.ObsLogError e; EventLoop.ObsTraceback] |}).
  { unfold EventLoop.run_step, EventLoop.step_top. rewrite Hpc, Hpoll, Hc, Ht.
    by destruct (EventLoop._ref_handlers (EventLoop.loop w)). }
  split; [done|].
  change (run 2 w) with (step (step w)). rewrite H1.
  match goal with
  | |- context [step ?w1] =>
      change (step w1) with (EventLoop.step_top host w1)
  end.
  unfold EventLoop.step_top. simpl.
  destruct (EventLoop._ref_handlers (EventLoop.loop w)); [done|].
  destruct (EventLoop.poll host (EventLoop.loop w) (S (EventLoop.clock w)) 1)
    as [e'|evs]; [|by split].
  destruct (is_os_io_error e'); [|by split].
  destruct (is_transient e'); by split.
Qed.

End Run.

(** ** Concrete runs *)

Lemma run_returns_at_first_empty_check_witness :
  ∃ k, (k < 4)%nat
       ∧ EventLoop.pc (EventLoop.run quiet_host leaving k start_one) = EventLoop.AtTop
       ∧ EventLoop._ref_handlers
           (EventLoop.loop (EventLoop.run quiet_host leaving k start_one)) = []
       ∧ EventLoop.loop (EventLoop.run quiet_host leaving 4 start_one)
         = EventLoop.loop (EventLoop.run quiet_host leaving k start_one)
       ∧ ∀ j, (j < k)%nat →
              EventLoop.pc (EventLoop.run quiet_host leaving j start_one)
              = EventLoop.AtTop →
              EventLoop._ref_handlers
                (EventLoop.loop (EventLoop.run quiet_host leaving j start_one)) ≠ [].
Proof.
  apply (proj1 (proj2 (proj2
           (run_returns_at_first_empty_check quiet_host leaving))));
    reflexivity.
Defined.

(** With a handler that adds a handler and two removals of the same
    handler in one cycle, the live list changes while the loop iterates
    over it, and the flush raises halfway and leaves the pending list
    uncleared. *)
Lemma live_list_grows_and_flush_raises :
  EventLoop.pc (EventLoop.run quiet_host adding_and_removing 1 start_two)
  = EventLoop.AtDispatch 0
  ∧ EventLoop._handlers
      (EventLoop.loop (EventLoop.run quiet_host adding_and_removing 1 start_two))
    = [1; 2]%nat
  ∧ EventLoop.pc (EventLoop.run quiet_host adding_and_removing 2 start_two)
    = EventLoop.AtDispatch 1
  ∧ EventLoop._iterating
      (EventLoop.loop (EventLoop.run quiet_host adding_and_removing 2 start_two))
    = true
  ∧ EventLoop._handlers
      (EventLoop.loop (EventLoop.run quiet_host adding_and_removing 2 start_two))
    = [1; 2; 3]%nat
  ∧ EventLoop.pc (EventLoop.run quiet_host adding_and_removing 5 start_two)
    = EventLoop.Escaped value_error
  ∧ EventLoop._handlers_to_remove
      (EventLoop.loop (EventLoop.run quiet_host adding_and_removing 5 start_two))
    = [2; 2]%nat.
Proof. repeat split; reflexivity. Qed.

Lemma removals_wait_for_the_end_of_the_iteration_witness :
  ((EventLoop.remove_handler (EventLoop.set_iterating true two_handlers) 2%nat).2 = None
   ∧ EventLoop._handlers
       (EventLoop.remove_handler (EventLoop.set_iterating true two_handlers) 2%nat).1
     = [1; 2]%nat
   ∧ EventLoop._handlers_to_remove
       (EventLoop.remove_handler (EventLoop.set_iterating true two_handlers) 2%nat).1
     = [] ++ [2%nat])
  ∧ (EventLoop._iterating
       (EventLoop.loop (EventLoop.run quiet_host first_removes_second 2
                                      dispatching_two)) = true
     ∧ ∃ added,
         EventLoop._handlers
           (EventLoop.loop (EventLoop.run quiet_host first_removes_second 2
                                          dispatching_two))
         = EventLoop._handlers (EventLoop.loop dispatching_two) ++ added
         ∧ ((∀ k i h,
               (k < 2)%nat →
               EventLoop.pc (EventLoop.run quiet_host first_removes_second k
                                           dispatching_two)
               = EventLoop.AtDispatch i →
               EventLoop._handlers
                 (EventLoop.loop (EventLoop.run quiet_host first_removes_second k
                                                dispatching_two)) !! i = Some h →
               forallb adds_no_handler
                 (first_removes_second h
                    (EventLoop.events
                       (EventLoop.run quiet_host first_removes_second k
                                      dispatching_two))
                    (EventLoop.run quiet_host first_removes_second k
                                   dispatching_two)) = true) →
            added = []))
  ∧ (∃ hs,
       EventLoop.run_step quiet_host first_removes_second flushing_once
       = {| EventLoop.loop :=
              EventLoop.set_iterating false
                (EventLoop.set_handlers_to_remove []
                   (EventLoop.set_handlers hs (EventLoop.loop flushing_once)));
            EventLoop.clock := EventLoop.clock flushing_once;
            EventLoop.events := EventLoop.events flushing_once;
            EventLoop.pc := EventLoop.AtTop;
            EventLoop.trace := EventLoop.trace flushing_once |}
       ∧ EventLoop._handlers_to_remove (EventLoop.loop flushing_once) ++ hs
         ≡ₚ EventLoop._handlers (EventLoop.loop flushing_once)
       ∧ hs `sublist_of` EventLoop._handlers (EventLoop.loop flushing_once))
  ∧ (EventLoop.pc (EventLoop.run_step quiet_host adding_and_removing flushing_twice)
     = EventLoop.Escaped value_error
     ∧ EventLoop._handlers_to_remove
         (EventLoop.loop (EventLoop.run_step quiet_host adding_and_removing
                                             flushing_twice))
       = EventLoop._handlers_to_remove (EventLoop.loop flushing_twice)).
Proof.
  split; [|split; [|split]].
  - apply (proj1 (removals_wait_for_the_end_of_the_iteration
                    quiet_host first_removes_second)
                 (EventLoop.set_iterating true two_handlers) 2%nat).
    reflexivity.
  - apply (proj2 (proj2 (proj2 (proj2 (removals_wait_for_the_end_of_the_iteration
                                         quiet_host first_removes_second))))
                 dispatching_two 2%nat); [reflexivity|].
    intros k Hk. destruct k as [|[|k]].
    + exists 0%nat, 1%nat. split; reflexivity.
    + exists 1%nat, 2%nat. split; reflexivity.
    + lia.
  - apply (proj1 (proj2 (proj2 (removals_wait_for_the_end_of_the_iteration
                                  quiet_host first_removes_second)))
                 flushing_once 2%nat); [reflexivity|reflexivity|].
    apply (bool_decide_unpack _). vm_compute. reflexivity.
  - apply (proj1 (proj2 (proj2 (proj2 (removals_wait_for_the_end_of_the_iteration
                                         quiet_host adding_and_removing))))
                 flushing_twice 3%nat); [reflexivity|reflexivity|].
    apply (bool_decide_eq_false_1 _). vm_compute. reflexivity.
Defined.

(** The second handler, removed by the first, is called in that same
    cycle: the run has polled once, and the second handler is called after
    the first has put it on the pending list. *)
Lemma removed_handler_is_called_in_the_same_cycle :
  EventLoop._handlers_to_remove
    (EventLoop.loop (EventLoop.run quiet_host first_removes_second 2 start_two))
  = [2%nat]
  ∧ EventLoop.trace (EventLoop.run quiet_host first_removes_second 2 start_two)
    = [EventLoop.ObsInvoke 1%nat []]
  ∧ EventLoop.trace (EventLoop.run quiet_host first_removes_second 3 start_two)
    = [EventLoop.ObsInvoke 1%nat []; EventLoop.ObsInvoke 2%nat []]
  ∧ EventLoop.clock (EventLoop.run quiet_host first_removes_second 3 start_two)
    = 1%nat.
Proof. repeat split; reflexivity. Qed.

Lemma removed_handler_runs_once_more_witness :
  ((∃ added,
      EventLoop._handlers
        (EventLoop.loop (EventLoop.run quiet_host first_removes_second 1
                                       dispatching_two))
      = [1; 2]%nat ++ added)
   ∧ 2%nat ∈ EventLoop._handlers_to_remove
               (EventLoop.loop (EventLoop.run quiet_host first_removes_second 1
                                              dispatching_two)))
  ∧ (∃ tl1 tl2, EventLoop.trace
             (EventLoop.run quiet_host first_removes_second 2 dispatching_two)
           = EventLoop.trace dispatching_two
             ++ EventLoop.ObsInvoke 1%nat (EventLoop.events dispatching_two) :: tl1
             ++ EventLoop.ObsInvoke 2%nat (EventLoop.events dispatching_two) :: tl2)
  ∧ ((EventLoop._handlers
        (EventLoop.loop (EventLoop.run quiet_host first_removes_second 1
                                       dispatching_two))
      = [1; 2]%nat
      ∧ EventLoop._handlers_to_remove
          (EventLoop.loop (EventLoop.run quiet_host first_removes_second 1
                                         dispatching_two))
        = [2%nat])
     ∧ (EventLoop.pc (EventLoop.run quiet_host first_removes_second 3 dispatching_two)
        = EventLoop.AtTop
        ∧ EventLoop._handlers
            (EventLoop.loop (EventLoop.run quiet_host first_removes_second 3
                                           dispatching_two))
          = [1%nat]
        ∧ EventLoop._handlers_to_remove
            (EventLoop.loop (EventLoop.run quiet_host first_removes_second 3
                                           dispatching_two))
          = []
        ∧ EventLoop._iterating
            (EventLoop.loop (EventLoop.run quiet_host first_removes_second 3
                                           dispatching_two))
          = false)).
Proof.
  destruct (removed_handler_runs_once_more quiet_host first_removes_second
              dispatching_two 1%nat 2%nat [] []
              eq_refl eq_refl eq_refl eq_refl eq_refl) as (H1 & H2 & H3).
  split; [exact H1|]. split; [apply H2; reflexivity|].
  apply H3; try reflexivity. intros H. discriminate H.
Defined.

(** A [ValueError] that a handler raises leaves [run]. *)
Lemma value_error_of_a_handler_leaves_run :
  EventLoop.pc (EventLoop.run quiet_host raising 2 start_one)
  = EventLoop.Escaped bad_value.
Proof. reflexivity. Qed.

Lemma run_catches_os_and_io_errors_only_witness :
  is_os_io_error bad_value = false
  ∧ (if is_os_io_error (os_error 9)
     then finished (EventLoop.pc (EventLoop.run_step (failing_host 9) idle start_one))
          = false
     else EventLoop.pc (EventLoop.run_step (failing_host 9) idle start_one)
          = EventLoop.Escaped (os_error 9))
  ∧ (if is_os_io_error (os_error 9)
     then EventLoop.pc (EventLoop.run_step quiet_host failing dispatching_two)
          = EventLoop.AtDispatch 1
          ∧ EventLoop.trace (EventLoop.run_step quiet_host failing dispatching_two)
            = EventLoop.trace dispatching_two
              ++ [EventLoop.ObsInvoke 1%nat (EventLoop.events dispatching_two);
                  EventLoop.ObsLogError (os_error 9); EventLoop.ObsTraceback]
     else EventLoop.pc (EventLoop.run_step quiet_host failing dispatching_two)
          = EventLoop.Escaped (os_error 9)).
Proof.
  split; [|split].
  - apply (proj1 (run_catches_os_and_io_errors_only quiet_host raising)
                 start_one 2%nat bad_value); reflexivity.
  - apply (proj1 (proj2 (run_catches_os_and_io_errors_only (failing_host 9) idle))
                 start_one (os_error 9)); try reflexivity.
    intros H. discriminate H.
  - apply (proj2 (proj2 (run_catches_os_and_io_errors_only quiet_host failing))
                 dispatching_two 0%nat 1%nat (os_error 9)); reflexivity.
Defined.

(** After a poll that failed with EINTR the handler is called, before any
    other poll. *)
Lemma handler_is_called_after_eintr :
  EventLoop.trace (EventLoop.run (failing_host EINTR) idle 2 start_one)
  = [EventLoop.ObsLogDebug (os_error EINTR); EventLoop.ObsInvoke 1%nat []]
  ∧ EventLoop.clock (EventLoop.run (failing_host EINTR) idle 2 start_one) = 1%nat.
Proof. split; reflexivity. Qed.

Lemma transient_poll_error_still_dispatches_witness :
  EventLoop.run_step (failing_host EINTR) idle start_one
  = {| EventLoop.loop := EventLoop.set_iterating true (EventLoop.loop start_one);
       EventLoop.clock := S (EventLoop.clock start_one);
       EventLoop.events := EventLoop.events start_one;
       EventLoop.pc := EventLoop.AtDispatch 0;
       EventLoop.trace :=
         EventLoop.trace start_one ++ [EventLoop.ObsLogDebug (os_error EINTR)] |}
  ∧ ∀ h, EventLoop._handlers (EventLoop.loop start_one) !! 0%nat = Some h →
         EventLoop.clock (EventLoop.run (failing_host EINTR) idle 2 start_one)
         = S (EventLoop.clock start_one)
         ∧ ∃ tl, EventLoop.trace (EventLoop.run (failing_host EINTR) idle 2 start_one)
                 = EventLoop.trace start_one
                   ++ EventLoop.ObsLogDebug (os_error EINTR)
                   :: EventLoop.ObsInvoke h (EventLoop.events start_one) :: tl.
Proof.
  apply (transient_poll_error_still_dispatches (failing_host EINTR) idle
           start_one (os_error EINTR)); try reflexivity.
  - intros H. discriminate H.
  - left. reflexivity.
Defined.

(** After a poll that failed with EBADF the cycle is over with the handler
    not called; it is called only after the next poll. *)
Lemma handler_is_not_called_after_ebadf :
  EventLoop.pc (EventLoop.run (failing_host 9) idle 1 start_one) = EventLoop.AtTop
  ∧ EventLoop.trace (EventLoop.run (failing_host 9) idle 1 start_one)
    = [EventLoop.ObsLogError (os_error 9); EventLoop.ObsTraceback]
  ∧ EventLoop.clock (EventLoop.run (failing_host 9) idle 2 start_one) = 2%nat
  ∧ EventLoop.trace (EventLoop.run (failing_host 9) idle 2 start_one)
    = [EventLoop.ObsLogError (os_error 9); EventLoop.ObsTraceback]
  ∧ EventLoop.trace (EventLoop.run (failing_host 9) idle 3 start_one)
    = [EventLoop.ObsLogError (os_error 9); EventLoop.ObsTraceback;
       EventLoop.ObsInvoke 1%nat []].
Proof. repeat split; reflexivity. Qed.

Lemma other_poll_error_skips_the_cycle_witness :
  EventLoop.run_step (failing_host 9) idle start_one
  = {| EventLoop.loop := EventLoop.loop start_one;
       EventLoop.clock := S (EventLoop.clock start_one);
       EventLoop.events := EventLoop.events start_one;
       EventLoop.pc := EventLoop.AtTop;
       EventLoop.trace :=
         EventLoop.trace start_one
         ++ [EventLoop.ObsLogError (os_error 9); EventLoop.ObsTraceback] |}
  ∧ EventLoop.pc (EventLoop.run (failing_host 9) idle 2 start_one)
    ≠ EventLoop.Returned
  ∧ EventLoop.clock (EventLoop.run (failing_host 9) idle 2 start_one)
    = S (S (EventLoop.clock start_one)).
Proof.
  apply (other_poll_error_skips_the_cycle (failing_host 9) idle
           start_one (os_error 9)); try reflexivity;
    intros H; discriminate H.
Defined.

Lemma poll_merges_reports_per_descriptor_witness :
  (∃ events,
     kqueue_wait busy_host (KqueueLoop._kqueue empty_kqueue) 0
                 (if 1 <? 0 then None else Some 1) = inr events
     ∧ merged (kqueue_reports events) [(5, 1); (3, 5)]
     ∧ ∀ fd,
         (∃ e, e ∈ events ∧ select.ident e = fd
               ∧ select.filter e = select.KQ_FILTER_READ) →
         (∃ e, e ∈ events ∧ select.ident e = fd
               ∧ select.filter e = select.KQ_FILTER_WRITE) →
         ∃ fl, (fd, fl) ∈ [(5, 1); (3, 5)]
               ∧ Z.land fl POLL_IN = POLL_IN ∧ Z.land fl POLL_OUT = POLL_OUT
               ∧ ∀ fl', (fd, fl') ∈ [(5, 1); (3, 5)] → fl' = fl)
  ∧ (∃ r w x,
       select_wait busy_host (SelectLoop._r_list empty_select)
                   (SelectLoop._w_list empty_select)
                   (SelectLoop._x_list empty_select) 0 (Some 1) = inr (r, w, x)
       ∧ merged (select_reports r w x) [(5, 1); (3, 5)]
       ∧ ∀ fd, fd ∈ r → fd ∈ w →
           ∃ fl, (fd, fl) ∈ [(5, 1); (3, 5)]
                 ∧ Z.land fl POLL_IN = POLL_IN ∧ Z.land fl POLL_OUT = POLL_OUT
                 ∧ ∀ fl', (fd, fl') ∈ [(5, 1); (3, 5)] → fl' = fl).
Proof.
  split.
  - apply (proj1 poll_merges_reports_per_descriptor busy_host empty_kqueue 0%nat 1).
    reflexivity.
  - apply (proj2 poll_merges_reports_per_descriptor busy_host empty_select 0%nat 1).
    reflexivity.
Defined.

Lemma registry_is_net_effect_of_calls_witness :
  EventLoop._fd_to_f (do_calls quiet_host some_calls epoll_loop)
  = net_effect (EventLoop._fd_to_f epoll_loop) some_calls
  ∧ (size (EventLoop._fd_to_f (do_calls quiet_host some_calls epoll_loop))
     + count_removes some_calls
     = size (EventLoop._fd_to_f epoll_loop) + count_adds some_calls)%nat
  ∧ (∀ fd f,
       EventLoop._fd_to_f (do_calls quiet_host some_calls epoll_loop) !! fd = Some f ↔
       (fileno f = fd
        ∧ ∃ pre mode post, some_calls = pre ++ RegAdd f mode :: post
                           ∧ Forall (λ c, touches fd c = false) post)
       ∨ (EventLoop._fd_to_f epoll_loop !! fd = Some f
          ∧ Forall (λ c, touches fd c = false) some_calls))
  ∧ (∀ s f mode,
       EventLoop._fd_to_f (EventLoop.modify quiet_host s f mode).1
       = EventLoop._fd_to_f s).
Proof.
  apply (registry_is_net_effect_of_calls quiet_host epoll_loop some_calls).
  simpl. rewrite dom_empty_L. repeat split; set_solver.
Defined.

Lemma native_interest_only_for_some_bits_witness :
  KqueueLoop.add_fd quiet_host empty_kqueue 7 POLL_HUP
  = ({| KqueueLoop._kqueue := KqueueLoop._kqueue empty_kqueue;
        KqueueLoop._fds := <[7 := POLL_HUP]> (KqueueLoop._fds empty_kqueue) |}, None)
  ∧ SelectLoop.add_fd empty_select 7 POLL_NVAL = empty_select
  ∧ (Z.land POLL_HUP POLL_IN = 0 ∧ Z.land POLL_HUP POLL_OUT = 0
     ∧ Z.land POLL_HUP POLL_ERR = 0).
Proof.
  destruct native_interest_only_for_some_bits
    as (_ & _ & _ & Hkq & _ & Hsel & Hbits).
  split; [|split].
  - apply Hkq; reflexivity.
  - apply Hsel; reflexivity.
  - apply Hbits. apply elem_of_cons. left. reflexivity.
Defined.


(** * Further properties of the code *)

(** ** SelectLoop *)

Lemma truthy_land_lor (a b bit : Z) :
  truthy (Z.land (Z.lor a b) bit) = truthy (Z.land a bit) || truthy (Z.land b bit).
Proof.
  rewrite Z.land_lor_distr_l. unfold truthy.
  destruct (Z.eqb_spec (Z.lor (Z.land a bit) (Z.land b bit)) 0) as [H|H];
    destruct (Z.eqb_spec (Z.land a bit) 0) as [Ha|Ha];
    destruct (Z.eqb_spec (Z.land b bit) 0) as [Hb|Hb]; simpl; try done.
  - apply Z.lor_eq_0_iff in H. tauto.
  - apply Z.lor_eq_0_iff in H. tauto.
  - apply Z.lor_eq_0_iff in H. tauto.
  - exfalso. apply H. apply Z.lor_eq_0_iff. tauto.
Qed.

(** X1: [SelectLoop.modify_fd] replaces the interest in the descriptor: after
    it the descriptor is in the read, write and error set exactly as the
    new mode has POLL_IN, POLL_OUT and POLL_ERR, whatever it was in before,
    and the other descriptors are where they were. *)
Theorem select_modify_fd_replaces_interest
    (self : SelectLoop.t) (fd mode fd' : Z) :
  (fd' ∈ SelectLoop._r_list (SelectLoop.modify_fd self fd mode)
   ↔ (fd' = fd ∧ Z.land mode POLL_IN ≠ 0)
     ∨ (fd' ≠ fd ∧ fd' ∈ SelectLoop._r_list self))
  ∧ (fd' ∈ SelectLoop._w_list (SelectLoop.modify_fd self fd mode)
     ↔ (fd' = fd ∧ Z.land mode POLL_OUT ≠ 0)
       ∨ (fd' ≠ fd ∧ fd' ∈ SelectLoop._w_list self))
  ∧ (fd' ∈ SelectLoop._x_list (SelectLoop.modify_fd self fd mode)
     ↔ (fd' = fd ∧ Z.land mode POLL_ERR ≠ 0)
       ∨ (fd' ≠ fd ∧ fd' ∈ SelectLoop._x_list self)).
Proof.
  assert (Hset : ∀ (bit : Z) (s : gset Z),
             fd' ∈ (if truthy (Z.land mode bit)
                    then {[fd]} ∪ (if decide (fd ∈ s) then s ∖ {[fd]} else s)
                    else (if decide (fd ∈ s) then s ∖ {[fd]} else s))
             ↔ (fd' = fd ∧ Z.land mode bit ≠ 0) ∨ (fd' ≠ fd ∧ fd' ∈ s)).
  { intros bit s.
    destruct (truthy (Z.land mode bit)) eqn:Hb;
      (apply truthy_true in Hb || apply truthy_false in Hb);
      case_decide;
      rewrite ?elem_of_union, ?elem_of_difference, ?elem_of_singleton;
      destruct (decide (fd' = fd)) as [->|Hne]; tauto. }
  unfold SelectLoop.modify_fd, SelectLoop.add_fd, SelectLoop.remove_fd; simpl.
  split; [|split]; apply Hset.
Qed.

(** X2: [SelectLoop.add_fd] accumulates: a second add of the same
    descriptor does not replace its interest but adds to it, so that two
    adds are one add of the OR of the two modes. *)
Theorem select_add_fd_twice_is_add_of_or
    (self : SelectLoop.t) (fd m1 m2 : Z) :
  SelectLoop.add_fd (SelectLoop.add_fd self fd m1) fd m2
  = SelectLoop.add_fd self fd (Z.lor m1 m2).
Proof.
  assert (Hset : ∀ (b1 b2 : bool) (s : gset Z),
             (if b2 then {[fd]} ∪ (if b1 then {[fd]} ∪ s else s)
              else (if b1 then {[fd]} ∪ s else s))
             = if b1 || b2 then {[fd]} ∪ s else s).
  { intros [] [] s; simpl; set_solver. }
  unfold SelectLoop.add_fd; simpl. by rewrite !truthy_land_lor, !Hset.
Qed.

(** X3: [SelectLoop.remove_fd] undoes [add_fd]: removing a descriptor after
    adding it is removing it, and gives back the backend as it was exactly
    when the descriptor was in none of the three sets. *)
Theorem select_remove_fd_undoes_add_fd (self : SelectLoop.t) (fd mode : Z) :
  SelectLoop.remove_fd (SelectLoop.add_fd self fd mode) fd
  = SelectLoop.remove_fd self fd
  ∧ (SelectLoop.remove_fd (SelectLoop.add_fd self fd mode) fd = self
     ↔ fd ∉ select_monitored self).
Proof.
  assert (Hrm : ∀ s : gset Z, (if decide (fd ∈ s) then s ∖ {[fd]} else s) = s ∖ {[fd]}).
  { intros s. case_decide; set_solver. }
  assert (Hadd : ∀ (b : bool) (s : gset Z),
             (if b then {[fd]} ∪ s else s) ∖ {[fd]} = s ∖ {[fd]}).
  { intros [] s; set_solver. }
  assert (H1 : SelectLoop.remove_fd (SelectLoop.add_fd self fd mode) fd
               = SelectLoop.remove_fd self fd).
  { unfold SelectLoop.remove_fd, SelectLoop.add_fd; simpl.
    by rewrite !Hrm, !Hadd. }
  split; [done|]. rewrite H1.
  unfold select_monitored, SelectLoop.remove_fd. rewrite !Hrm.
  destruct self as [r w x]; simpl. split.
  - intros [= Hr Hw Hx]. set_solver.
  - intros Hnot. f_equal; set_solver.
Qed.

(** ** KqueueLoop *)

(** X4: a modify of a descriptor that was never added.  The kqueue backend
    raises [KeyError] before anything is sent to the kernel, as its
    [remove_fd] does, and does not add the descriptor: it is left as it was.
    The select backend raises nothing and starts monitoring the descriptor,
    as [add_fd] would. *)
Theorem modify_fd_of_a_descriptor_never_added
    (host : Host) (fd mode : Z) :
  (∀ self : KqueueLoop.t,
     KqueueLoop._fds self !! fd = None →
     KqueueLoop.remove_fd host self fd = (self, Some (key_error fd))
     ∧ KqueueLoop.modify_fd host self fd mode = (self, Some (key_error fd)))
  ∧ (∀ self : SelectLoop.t,
       fd ∉ select_monitored self →
       SelectLoop.modify_fd self fd mode = SelectLoop.add_fd self fd mode).
Proof.
  split.
  - intros self Hfd. unfold KqueueLoop.modify_fd, KqueueLoop.remove_fd.
    by rewrite Hfd.
  - intros self Hnot. unfold SelectLoop.modify_fd. f_equal.
    unfold select_monitored in Hnot. unfold SelectLoop.remove_fd.
    destruct self as [r w x]; simpl in *.
    rewrite !decide_False by set_solver. done.
Qed.

Lemma control_done (host : Host) (self : KqueueLoop.t) (fd mode fl : Z) :
  (KqueueLoop._control host self fd mode fl).2 = None →
  (KqueueLoop._control host self fd mode fl).1
  = {| KqueueLoop._kqueue :=
         KqueueLoop._kqueue self ++ KqueueLoop.control_events fd mode fl;
       KqueueLoop._fds := KqueueLoop._fds self |}.
Proof.
  intros Hnone.
  destruct (control_sends_prefix host self fd mode fl) as (sent & H1 & H2 & _ & H3).
  rewrite <- (H3 Hnone), <- H1, <- H2.
  by destruct (KqueueLoop._control host self fd mode fl).1.
Qed.

(** X5: when the kernel accepts the requests, [KqueueLoop.remove_fd] undoes
    [add_fd] of a new descriptor: the remembered modes are as before, and
    the kernel has been sent the add requests and then delete requests for
    the same filters of the same descriptor. *)
Theorem kqueue_remove_fd_undoes_add_fd
    (host : Host) (self : KqueueLoop.t) (fd mode : Z) :
  KqueueLoop._fds self !! fd = None →
  (KqueueLoop.add_fd host self fd mode).2 = None →
  (KqueueLoop.remove_fd host (KqueueLoop.add_fd host self fd mode).1 fd).2 = None →
  KqueueLoop._fds (KqueueLoop.remove_fd host (KqueueLoop.add_fd host self fd mode).1 fd).1
  = KqueueLoop._fds self
  ∧ KqueueLoop._kqueue
      (KqueueLoop.remove_fd host (KqueueLoop.add_fd host self fd mode).1 fd).1
    = KqueueLoop._kqueue self
      ++ KqueueLoop.control_events fd mode select.KQ_EV_ADD
      ++ KqueueLoop.control_events fd mode select.KQ_EV_DELETE
  ∧ (λ e, (select.ident e, select.filter e))
      <$> KqueueLoop.control_events fd mode select.KQ_EV_DELETE
    = (λ e, (select.ident e, select.filter e))
      <$> KqueueLoop.control_events fd mode select.KQ_EV_ADD.
Proof.
  intros Hnew Hadd. unfold KqueueLoop.add_fd in *.
  rewrite (control_done _ _ _ _ _ Hadd).
  unfold KqueueLoop.remove_fd. simpl. rewrite lookup_insert_eq.
  destruct (KqueueLoop._control host _ fd mode select.KQ_EV_DELETE)
    as [self' [e|]] eqn:Hc; [done|]. intros _.
  assert (Hd := control_done host
                  {| KqueueLoop._kqueue :=
                       KqueueLoop._kqueue self
                       ++ KqueueLoop.control_events fd mode select.KQ_EV_ADD;
                     KqueueLoop._fds := <[fd:=mode]> (KqueueLoop._fds self) |}
                  fd mode select.KQ_EV_DELETE).
  rewrite Hc in Hd. simpl in Hd. rewrite (Hd eq_refl). simpl.
  split; [|split].
  - by rewrite delete_insert_eq, delete_id.
  - by rewrite <- app_assoc.
  - unfold KqueueLoop.control_events.
    by destruct (truthy (Z.land mode POLL_IN)), (truthy (Z.land mode POLL_OUT)).
Qed.

(** X6: the kqueue backend's memory of modes through failures.  [add_fd]
    remembers the mode even when the kernel refuses the request; a
    [remove_fd] that raises forgets nothing, and one that returns forgets
    exactly the descriptor; a [modify_fd] that returns has the new mode
    remembered; and none of the three touches the mode of another
    descriptor. *)
Theorem kqueue_remembers_modes_through_failures
    (host : Host) (self : KqueueLoop.t) (fd mode : Z) :
  KqueueLoop._fds (KqueueLoop.add_fd host self fd mode).1 !! fd = Some mode
  ∧ (∀ e, (KqueueLoop.remove_fd host self fd).2 = Some e →
          KqueueLoop._fds (KqueueLoop.remove_fd host self fd).1
          = KqueueLoop._fds self)
  ∧ ((KqueueLoop.remove_fd host self fd).2 = None →
     is_Some (KqueueLoop._fds self !! fd)
     ∧ KqueueLoop._fds (KqueueLoop.remove_fd host self fd).1
       = delete fd (KqueueLoop._fds self))
  ∧ ((KqueueLoop.modify_fd host self fd mode).2 = None →
     KqueueLoop._fds (KqueueLoop.modify_fd host self fd mode).1 !! fd = Some mode)
  ∧ (∀ fd', fd' ≠ fd →
       KqueueLoop._fds (KqueueLoop.add_fd host self fd mode).1 !! fd'
       = KqueueLoop._fds self !! fd'
       ∧ KqueueLoop._fds (KqueueLoop.remove_fd host self fd).1 !! fd'
         = KqueueLoop._fds self !! fd'
       ∧ KqueueLoop._fds (KqueueLoop.modify_fd host self fd mode).1 !! fd'
         = KqueueLoop._fds self !! fd').
Proof.
  assert (Hadd : ∀ s, KqueueLoop._fds (KqueueLoop.add_fd host s fd mode).1
                      = <[fd:=mode]> (KqueueLoop._fds s)).
  { intros s. unfold KqueueLoop.add_fd.
    by destruct (control_sends_prefix host
                   {| KqueueLoop._kqueue := KqueueLoop._kqueue s;
                      KqueueLoop._fds := <[fd:=mode]> (KqueueLoop._fds s) |}
                   fd mode select.KQ_EV_ADD) as (_ & _ & H & _). }
  assert (Hrm : ∀ s, match (KqueueLoop.remove_fd host s fd).2 with
                     | Some _ => KqueueLoop._fds (KqueueLoop.remove_fd host s fd).1
                                 = KqueueLoop._fds s
                     | None => is_Some (KqueueLoop._fds s !! fd)
                               ∧ KqueueLoop._fds (KqueueLoop.remove_fd host s fd).1
                                 = delete fd (KqueueLoop._fds s)
                     end).
  { intros s. unfold KqueueLoop.remove_fd.
    destruct (KqueueLoop._fds s !! fd) as [old|] eqn:Hfd; [|done].
    destruct (control_sends_prefix host s fd old select.KQ_EV_DELETE)
      as (_ & _ & H & _).
    destruct (KqueueLoop._control host s fd old select.KQ_EV_DELETE)
      as [s' [e|]]; simpl in *; [done|]. rewrite H. eauto. }
  split; [by rewrite Hadd, lookup_insert_eq|].
  split; [intros e He; specialize (Hrm self); by rewrite He in Hrm|].
  split; [intros He; specialize (Hrm self); by rewrite He in Hrm|].
  split.
  - unfold KqueueLoop.modify_fd.
    destruct (KqueueLoop.remove_fd host self fd) as [s' [e|]]; [done|].
    intros _. by rewrite Hadd, lookup_insert_eq.
  - intros fd' Hne. split; [by rewrite Hadd, lookup_insert_ne|].
    assert (Hrm' : KqueueLoop._fds (KqueueLoop.remove_fd host self fd).1 !! fd'
                   = KqueueLoop._fds self !! fd').
    { specialize (Hrm self).
      destruct (KqueueLoop.remove_fd host self fd).2.
      - by rewrite Hrm.
      - destruct Hrm as [_ ->]. by rewrite lookup_delete_ne. }
    split; [done|]. unfold KqueueLoop.modify_fd.
    destruct (KqueueLoop.remove_fd host self fd) as [s' [e|]]; [done|].
    simpl in *. by rewrite Hadd, lookup_insert_ne.
Qed.

(** ** The flags a poll reports *)

Lemma foldl_lor_within (mask : Z) (fs : list Z) (acc : Z) :
  Z.land acc mask = acc → Forall (λ x, Z.land x mask = x) fs →
  Z.land (foldl Z.lor acc fs) mask = foldl Z.lor acc fs.
Proof.
  revert acc. induction fs as [|f fs IH]; intros acc Hacc Hfs; [done|].
  apply Forall_cons in Hfs as [Hf Hfs]. simpl. apply IH; [|done].
  by rewrite Z.land_lor_distr_l, Hacc, Hf.
Qed.

Lemma foldl_lor_zero (fs : list Z) (acc : Z) :
  foldl Z.lor acc fs = 0 → acc = 0 ∧ Forall (λ x, x = 0) fs.
Proof.
  revert acc. induction fs as [|f fs IH]; intros acc H; [by split|].
  simpl in H. apply IH in H as [H Hfs]. apply Z.lor_eq_0_iff in H as [? ?].
  split; [done|]. by constructor.
Qed.

(** The OR of a non-empty list of non-zero flags inside a mask is non-zero
    and inside the mask. *)
Lemma merged_flags_in_mask (mask : Z) (reports l : list (Z * Z)) (fd fl : Z) :
  merged reports l →
  Forall (λ p, p.2 ≠ 0 ∧ Z.land p.2 mask = p.2) reports →
  (fd, fl) ∈ l →
  fl ≠ 0 ∧ Z.land fl mask = fl.
Proof.
  intros [_ Hl] Hrep Hin. apply Hl in Hin as [Hne ->].
  assert (Hfs : Forall (λ x, x ≠ 0 ∧ Z.land x mask = x) (flags_of fd reports)).
  { apply Forall_forall. intros x Hx. apply flags_of_elem in Hx.
    by apply (proj1 (Forall_forall _ _) Hrep (fd, x)). }
  unfold or_all. split.
  - intros H0. apply foldl_lor_zero in H0 as [_ H0].
    destruct (flags_of fd reports) as [|x fs]; [done|].
    apply Forall_cons in H0 as [-> _]. by apply Forall_cons in Hfs as [[? _] _].
  - apply foldl_lor_within; [done|]. eapply Forall_impl; [exact Hfs|].
    by intros x [_ ?].
Qed.

Lemma land_outside_mask (fl mask bit : Z) :
  Z.land fl mask = fl → Z.land mask bit = 0 → Z.land fl bit = 0.
Proof.
  intros H Hbit. by rewrite <- H, <- Z.land_assoc, Hbit, Z.land_0_r.
Qed.

(** X7: the flags in what a poll returns.  The kqueue backend reports a
    non-empty combination of POLL_IN and POLL_OUT for each descriptor it
    returns, never POLL_ERR, POLL_HUP or POLL_NVAL; the select backend
    reports a non-empty combination of POLL_IN, POLL_OUT and POLL_ERR, never
    POLL_HUP or POLL_NVAL. *)
Theorem poll_reports_only_some_flags (host : Host) (now : nat) (timeout : Z) :
  (∀ self l fd fl,
     KqueueLoop.poll host self now timeout = inr l → (fd, fl) ∈ l →
     fl ≠ 0 ∧ Z.land fl kqueue_mask = fl
     ∧ Z.land fl POLL_ERR = 0 ∧ Z.land fl POLL_HUP = 0 ∧ Z.land fl POLL_NVAL = 0)
  ∧ (∀ self l fd fl,
       SelectLoop.poll host self now timeout = inr l → (fd, fl) ∈ l →
       fl ≠ 0 ∧ Z.land fl select_mask = fl
       ∧ Z.land fl POLL_HUP = 0 ∧ Z.land fl POLL_NVAL = 0).
Proof.
  split.
  - intros self l fd fl. unfold KqueueLoop.poll.
    destruct (kqueue_wait _ _ _ _) as [ex|events]; [done|]. intros [= <-] Hin.
    unfold KqueueLoop.merge in Hin. rewrite kqueue_merge_reports in Hin.
    destruct (merged_flags_in_mask kqueue_mask (kqueue_reports events) _ fd fl
                (merged_of_dict _)) as [Hne Hmask]; [|done|].
    { apply Forall_forall. intros [k v] Hk.
      apply kqueue_reports_elem in Hk as (e & _ & _ & [[_ ->]|[_ ->]]); done. }
    repeat split; [done..| | |]; by apply (land_outside_mask fl kqueue_mask).
  - intros self l fd fl. unfold SelectLoop.poll.
    destruct (select_wait _ _ _ _ _ _) as [ex|[[r w] x]]; [done|].
    intros [= <-] Hin. rewrite select_merge_reports in Hin.
    destruct (merged_flags_in_mask select_mask (select_reports r w x) _ fd fl
                (merged_of_dict _)) as [Hne Hmask]; [|done|].
    { apply Forall_forall. intros [k v] Hk.
      apply select_reports_elem in Hk as [[_ ->]|[[_ ->]|[_ ->]]]; done. }
    repeat split; [done..| |]; by apply (land_outside_mask fl select_mask).
Qed.

(** ** EventLoop.poll *)

Lemma translate_result (reg : gmap Z endpoint) (evs : list (Z * Z)) :
  match EventLoop.translate reg evs with
  | inr l =>
      Forall2 (λ p q, q.1.2 = p.1 ∧ q.2 = p.2 ∧ reg !! p.1 = Some q.1.1) evs l
  | inl e =>
      ∃ fd, fd ∈ evs.*1 ∧ reg !! fd = None ∧ e = key_error fd
  end.
Proof.
  induction evs as [|[fd ev] evs IH]; simpl; [constructor|].
  destruct (reg !! fd) as [f|] eqn:Hfd.
  - destruct (EventLoop.translate reg evs) as [e|l].
    + destruct IH as (fd' & Hin & Hnone & ->). exists fd'.
      split; [|done]. apply elem_of_cons. by right.
    + by constructor.
  - exists fd. split; [|done]. apply elem_of_cons. by left.
Qed.

(** X8: [EventLoop.poll] gives the backend's events in the backend's order,
    each with the endpoint the registry has for its descriptor; it raises
    what the backend raises, and otherwise raises only a [KeyError], for a
    descriptor that the backend reported and the registry does not have. *)
Theorem poll_translates_through_registry
    (host : Host) (self : EventLoop.t) (now : nat) (timeout : Z) :
  match EventLoop.poll host self now timeout with
  | inr l =>
      ∃ evs, impl_poll host (EventLoop._impl self) now timeout = inr evs
             ∧ Forall2 (λ p q, q.1.2 = p.1 ∧ q.2 = p.2
                               ∧ EventLoop._fd_to_f self !! p.1 = Some q.1.1)
                       evs l
  | inl e =>
      impl_poll host (EventLoop._impl self) now timeout = inl e
      ∨ ∃ evs fd, impl_poll host (EventLoop._impl self) now timeout = inr evs
                  ∧ fd ∈ evs.*1
                  ∧ EventLoop._fd_to_f self !! fd = None
                  ∧ e = key_error fd
  end.
Proof.
  unfold EventLoop.poll.
  destruct (impl_poll host (EventLoop._impl self) now timeout) as [e|evs];
    [by left|].
  pose proof (translate_result (EventLoop._fd_to_f self) evs) as H.
  destruct (EventLoop.translate (EventLoop._fd_to_f self) evs) as [e|l].
  - right. destruct H as (fd & ? & ? & ?). by exists evs, fd.
  - by exists evs.
Qed.

(** ** Registration calls and backend failures *)

(** X9: the registry is changed before the backend is asked.  After [add]
    the descriptor maps to the endpoint even when the backend raised; after
    [remove] it maps to nothing even when the backend raised; a [remove] of
    a descriptor the registry does not have raises [KeyError] and leaves the
    whole loop object, backend included, as it was; any other exception of
    [remove] is the backend's. *)
Theorem registry_changes_before_backend_is_asked
    (host : Host) (self : EventLoop.t) (f : endpoint) (mode : Z) :
  EventLoop._fd_to_f (EventLoop.add host self f mode).1 !! fileno f = Some f
  ∧ EventLoop._fd_to_f (EventLoop.remove host self f).1 !! fileno f = None
  ∧ (EventLoop._fd_to_f self !! fileno f = None →
     EventLoop.remove host self f = (self, Some (key_error (fileno f))))
  ∧ (is_Some (EventLoop._fd_to_f self !! fileno f) →
     (EventLoop.remove host self f).2
     = (impl_remove_fd host (EventLoop._impl self) (fileno f)).2).
Proof.
  split; [|split; [|split]].
  - unfold EventLoop.add. destruct (impl_add_fd _ _ _ _); simpl.
    apply lookup_insert_eq.
  - unfold EventLoop.remove.
    destruct (EventLoop._fd_to_f self !! fileno f) eqn:Hf; [|done].
    destruct (impl_remove_fd _ _ _); simpl. apply lookup_delete_eq.
  - intros Hf. unfold EventLoop.remove. by rewrite Hf.
  - intros [g Hf]. unfold EventLoop.remove. rewrite Hf. simpl.
    by destruct (impl_remove_fd _ _ _).
Qed.

(** ** Handlers *)

Lemma list_remove_last (h : handler) (l : list handler) :
  h ∉ l → list_remove h (l ++ [h]) = Some l.
Proof.
  intros Hnot. apply list_remove_Some. exists l, []. by rewrite app_nil_r.
Qed.

(** X10: outside the iteration, [remove_handler] undoes [add_handler] of a
    handler that was not registered: the loop object is as it was, whether
    the handler was added as a reference handler or not. *)
Theorem remove_handler_undoes_add_handler
    (self : EventLoop.t) (h : handler) (ref : bool) :
  EventLoop._iterating self = false →
  h ∉ EventLoop._handlers self →
  h ∉ EventLoop._ref_handlers self →
  EventLoop.remove_handler (EventLoop.add_handler self h ref) h = (self, None).
Proof.
  destruct self as [it i reg hs refs pend]; simpl. intros -> Hhs Hrefs.
  unfold EventLoop.remove_handler, EventLoop.add_handler. destruct ref; simpl.
  - rewrite decide_True by (apply elem_of_app; right; by apply list_elem_of_singleton).
    simpl. rewrite !list_remove_last by done. done.
  - rewrite decide_False by done. simpl. rewrite list_remove_last by done. done.
Qed.

(** X11: a handler registered again moves to the end.  [remove_handler]
    takes out the first occurrence, so that after adding a handler that is
    already in the live list, as a reference handler or not, and removing
    it once, the handler is still registered, but after the handlers it
    used to precede. *)
Theorem readded_handler_moves_to_the_end
    (self : EventLoop.t) (h : handler) (ref : bool) (l1 l2 : list handler) :
  EventLoop._iterating self = false →
  EventLoop._handlers self = l1 ++ h :: l2 →
  h ∉ l1 →
  (EventLoop.remove_handler (EventLoop.add_handler self h ref) h).2 = None
  ∧ EventLoop._handlers
      (EventLoop.remove_handler (EventLoop.add_handler self h ref) h).1
    = l1 ++ l2 ++ [h].
Proof.
  intros Hit Hhs Hnot.
  assert (Hr : list_remove h (EventLoop._handlers self ++ [h])
               = Some (l1 ++ l2 ++ [h])).
  { apply list_remove_Some. exists l1, (l2 ++ [h]).
    rewrite Hhs, <- app_assoc. done. }
  unfold EventLoop.remove_handler, EventLoop.add_handler.
  destruct ref; simpl; case_decide; simpl; rewrite Hit, Hr; done.
Qed.

(** X12: [remove_handler] outside the iteration.  It returns exactly when
    the handler is in the live list, and then takes its first occurrence
    out; otherwise it raises [ValueError] with the live list and the pending
    list as they were.  In both cases the reference list has lost the
    handler's first occurrence by then, that is also when the call
    raises. *)
Theorem remove_handler_outside_the_iteration (self : EventLoop.t) (h : handler) :
  EventLoop._iterating self = false →
  ((EventLoop.remove_handler self h).2 = None ↔ h ∈ EventLoop._handlers self)
  ∧ (h ∈ EventLoop._handlers self →
     ∃ l1 l2, EventLoop._handlers self = l1 ++ h :: l2 ∧ (h ∉ l1)
              ∧ EventLoop._handlers (EventLoop.remove_handler self h).1 = l1 ++ l2)
  ∧ (h ∉ EventLoop._handlers self →
     (EventLoop.remove_handler self h).2 = Some value_error
     ∧ EventLoop._handlers (EventLoop.remove_handler self h).1
       = EventLoop._handlers self)
  ∧ EventLoop._handlers_to_remove (EventLoop.remove_handler self h).1
    = EventLoop._handlers_to_remove self
  ∧ EventLoop._ref_handlers (EventLoop.remove_handler self h).1
    = default (EventLoop._ref_handlers self)
              (list_remove h (EventLoop._ref_handlers self)).
Proof.
  intros Hit.
  assert (Hcase : match list_remove h (EventLoop._handlers self) with
                  | Some l =>
                      EventLoop.remove_handler self h
                      = (EventLoop.set_handlers l
                           (EventLoop.set_ref_handlers
                              (default (EventLoop._ref_handlers self)
                                 (list_remove h (EventLoop._ref_handlers self)))
                              self), None)
                  | None =>
                      EventLoop.remove_handler self h
                      = (EventLoop.set_ref_handlers
                           (default (EventLoop._ref_handlers self)
                              (list_remove h (EventLoop._ref_handlers self)))
                           self, Some value_error)
                  end).
  { unfold EventLoop.remove_handler. case_decide as Hin; simpl; rewrite Hit.
    - by destruct (list_remove h (EventLoop._handlers self)).
    - apply list_remove_None in Hin. rewrite Hin. simpl.
      destruct self; simpl.
      by destruct (list_remove h _handlers). }
  destruct (list_remove h (EventLoop._handlers self)) as [l|] eqn:Hr;
    rewrite Hcase; simpl.
  - pose proof Hr as Hsome. apply list_remove_Some in Hr as (l1 & l2 & Hl & Hnot & ->).
    assert (Hin : h ∈ EventLoop._handlers self).
    { rewrite Hl. apply elem_of_app. right. apply elem_of_cons. by left. }
    split; [done|]. split; [intros _; by exists l1, l2|].
    split; [|done]. intros Hno. apply list_remove_None in Hno.
    by rewrite Hno in Hsome.
  - apply list_remove_None in Hr.
    split; [split; [done|by intros ?]|].
    split; [by intros ?|]. done.
Qed.

(** X13: the flush of the pending removals goes through exactly when the
    pending list, counted with repetitions, is contained in the live list;
    then the live list loses exactly the pending handlers and keeps the
    order of the rest; otherwise [list.remove] raises [ValueError]. *)
Theorem flush_goes_through_iff_pending_are_live (hs pending : list handler) :
  ((EventLoop.flush hs pending).2 = None ↔ pending ⊆+ hs)
  ∧ ((EventLoop.flush hs pending).2 = None →
     pending ++ (EventLoop.flush hs pending).1 ≡ₚ hs
     ∧ (EventLoop.flush hs pending).1 `sublist_of` hs)
  ∧ (∀ e, (EventLoop.flush hs pending).2 = Some e → e = value_error).
Proof.
  split; [|split].
  - revert hs. induction pending as [|h pending IH]; intros hs; simpl.
    + split; [intros _; apply submseteq_nil_l|done].
    + destruct (list_remove h hs) as [hs1|] eqn:Hr.
      * apply list_remove_Some in Hr as (l1 & l2 & -> & _ & ->).
        rewrite IH. rewrite <- (Permutation_middle l1 l2 h).
        split; [apply submseteq_skip|].
        intros H. by apply (submseteq_app_inv_l _ _ [h]).
      * apply list_remove_None in Hr. simpl. split; [done|].
        intros H. exfalso. apply Hr.
        apply (elem_of_submseteq (h :: pending)); [apply elem_of_cons; by left|done].
  - intros H. destruct (EventLoop.flush hs pending) as [hs' r] eqn:Hf.
    simpl in *. subst r. by apply flush_applies_all.
  - intros e H. destruct (EventLoop.flush hs pending) as [hs' r] eqn:Hf.
    simpl in *. subst r. by apply flush_raises_value_error in Hf.
Qed.

(** ** More on [run] *)

Section RunFurther.

Context (host : Host) (body : EventLoop.behaviour).

#[local] Abbreviation step := (EventLoop.run_step host body).
#[local] Abbreviation run := (EventLoop.run host body).

Lemma step_consistent (w : EventLoop.World) : consistent w → consistent (step w).
Proof.
  unfold consistent, EventLoop.run_step.
  destruct (EventLoop.pc w) as [|i| |e] eqn:Hpc; rewrite ?Hpc; try done.
  - intros [Hit Hpend]. unfold EventLoop.step_top.
    destruct (EventLoop._ref_handlers (EventLoop.loop w)); [done|].
    destruct (EventLoop.poll _ _ _ _) as [e|evs]; [|done].
    destruct (is_os_io_error e); [|done]. by destruct (is_transient e).
  - intros Hit. destruct (EventLoop._handlers (EventLoop.loop w) !! i) as [h|].
    + unfold EventLoop.step_invoke.
      destruct (run_script_while_iterating host (body h (EventLoop.events w) w)
                  (EventLoop.loop w) Hit) as (Hit' & _).
      destruct (EventLoop.run_script _ _ _) as [self' [e|]]; simpl in *; [|done].
      by destruct (is_os_io_error e).
    + unfold EventLoop.step_flush.
      destruct (EventLoop._handlers_to_remove (EventLoop.loop w)) eqn:Hp;
        [simpl; by split|].
      by destruct (EventLoop.flush _ _) as [hs [e|]].
Qed.

Lemma run_consistent (n : nat) (w : EventLoop.World) :
  consistent w → consistent (run n w).
Proof.
  revert w. induction n as [|n IH]; intros w Hw; [done|].
  simpl. by apply IH, step_consistent.
Qed.

Lemma returned_without_ref_handlers (n : nat) (w : EventLoop.World) :
  EventLoop.pc w ≠ EventLoop.Returned →
  EventLoop.pc (run n w) = EventLoop.Returned →
  EventLoop._ref_handlers (EventLoop.loop (run n w)) = [].
Proof.
  intros Hw. induction n as [|n IH]; intros Hr; [done|].
  rewrite (run_S host body) in Hr |- *.
  assert (Hn : EventLoop.pc (run n w) = EventLoop.Returned
               ∨ EventLoop.pc (run n w) ≠ EventLoop.Returned)
    by (destruct (EventLoop.pc (run n w)); auto).
  destruct Hn as [Hn|Hn].
  - rewrite (step_finished host body) by (by rewrite Hn). auto.
  - apply (step_returns host body) in Hr as (_ & Href & Hloop); [|done].
    by rewrite Hloop.
Qed.

(** X14: [run] keeps the flag and the pending list in step with where it
    is.  Entered on a loop whose flag is clear and whose pending list is
    empty, it has the flag clear and nothing pending at every top of a
    cycle and the flag set inside every iteration; and when it returns, the
    flag is clear, nothing is pending and no reference handler is left. *)
Theorem run_returns_with_flag_clear_and_nothing_pending
    (self : EventLoop.t) (now n : nat) :
  EventLoop._iterating self = false →
  EventLoop._handlers_to_remove self = [] →
  consistent (run n (EventLoop.enter_run self now))
  ∧ (EventLoop.pc (run n (EventLoop.enter_run self now)) = EventLoop.Returned →
     EventLoop._iterating (EventLoop.loop (run n (EventLoop.enter_run self now)))
     = false
     ∧ EventLoop._handlers_to_remove
         (EventLoop.loop (run n (EventLoop.enter_run self now))) = []
     ∧ EventLoop._ref_handlers
         (EventLoop.loop (run n (EventLoop.enter_run self now))) = []).
Proof.
  intros Hit Hpend.
  assert (Hc : consistent (run n (EventLoop.enter_run self now))).
  { apply run_consistent. by split. }
  split; [done|]. intros Hr. unfold consistent in Hc. rewrite Hr in Hc.
  destruct Hc as [? ?]. repeat split; [done..|].
  by apply returned_without_ref_handlers.
Qed.


Lemma step_invoke_invoked (i : nat) (h : handler) (w : EventLoop.World) :
  invoked (EventLoop.trace (EventLoop.step_invoke host body i h w))
  = invoked (EventLoop.trace w) ++ [(h, EventLoop.events w)]
  ∧ EventLoop.events (EventLoop.step_invoke host body i h w) = EventLoop.events w
  ∧ (∀ j, EventLoop.pc (EventLoop.step_invoke host body i h w)
          = EventLoop.AtDispatch j → j = S i).
Proof.
  unfold EventLoop.step_invoke, invoked.
  destruct (EventLoop.run_script _ _ _) as [self' [e|]]; simpl.
  - destruct (is_os_io_error e); simpl; rewrite ?omap_app; simpl;
      rewrite ?app_nil_r; repeat split; try done; by intros j [= <-].
  - rewrite omap_app. simpl. repeat split. by intros j [= <-].
Qed.

(** X16: within one iteration the handlers are called in the order of the
    live list, each once and all with the same events: after [n] calls, the
    handlers called are the first [n] of the live list as it then stands.
    Since the live list only grows during the iteration, a handler that a
    handler appended is called in that same pass. *)
Theorem handlers_are_called_in_list_order (w : EventLoop.World) (n : nat) :
  EventLoop.pc w = EventLoop.AtDispatch 0 →
  EventLoop._iterating (EventLoop.loop w) = true →
  (∀ k, (k < n)%nat →
        ∃ i h, EventLoop.pc (run k w) = EventLoop.AtDispatch i
               ∧ EventLoop._handlers (EventLoop.loop (run k w)) !! i = Some h) →
  invoked (EventLoop.trace (run n w))
  = invoked (EventLoop.trace w)
    ++ ((λ h, (h, EventLoop.events w))
          <$> take n (EventLoop._handlers (EventLoop.loop (run n w))))
  ∧ (∀ j, EventLoop.pc (run n w) = EventLoop.AtDispatch j → j = n).
Proof.
  intros Hpc Hit. induction n as [|n IH]; intros Hcalls.
  - simpl. rewrite app_nil_r. split; [done|]. intros j. rewrite Hpc. by intros [= <-].
  - destruct IH as [Hinv Hidx]; [intros k Hk; apply Hcalls; lia|].
    destruct (Hcalls n) as (i & h & Hpcn & Hh); [lia|].
    assert (i = n) as -> by (by apply Hidx).
    assert (Hev : EventLoop.events (run n w) = EventLoop.events w).
    { clear -Hcalls. induction n as [|n IHn]; [done|].
      destruct (Hcalls n) as (i & h & Hpcn & Hh); [lia|].
      rewrite (run_S host body). unfold EventLoop.run_step. rewrite Hpcn, Hh.
      destruct (step_invoke_invoked i h (run n w)) as (_ & -> & _).
      apply IHn. intros k Hk. apply Hcalls. lia. }
    assert (Hitn : EventLoop._iterating (EventLoop.loop (run n w)) = true).
    { clear -Hcalls Hit. induction n as [|n IHn]; [done|].
      destruct (Hcalls n) as (i & h & Hpcn & Hh); [lia|].
      rewrite (run_S host body).
      apply (step_while_iterating host body (run n w) i h Hpcn Hh).
      apply IHn. intros k Hk. apply Hcalls. lia. }
    destruct (step_while_iterating host body (run n w) n h Hpcn Hh Hitn)
      as (_ & added & Hadded & _).
    rewrite (run_S host body).
    assert (Hstep : step (run n w) = EventLoop.step_invoke host body n h (run n w)).
    { unfold EventLoop.run_step. by rewrite Hpcn, Hh. }
    destruct (step_invoke_invoked n h (run n w)) as (Htr & _ & Hnext).
    rewrite <- Hstep in Htr, Hnext. split; [|done].
    rewrite Htr, Hinv, Hev, Hadded.
    assert (Hlen : (n < length (EventLoop._handlers (EventLoop.loop (run n w))))%nat)
      by (by apply lookup_lt_Some in Hh).
    rewrite take_app_le by lia.
    rewrite (take_S_r _ _ h) by done.
    rewrite fmap_app, <- app_assoc. done.
Qed.

End RunFurther.

(** ** The backends behind the registration calls *)

Lemma kqueue_add_fd_fds (host : Host) (s : KqueueLoop.t) (fd mode : Z) :
  KqueueLoop._fds (KqueueLoop.add_fd host s fd mode).1
  = <[fd:=mode]> (KqueueLoop._fds s).
Proof.
  unfold KqueueLoop.add_fd.
  by destruct (control_sends_prefix host
                 {| KqueueLoop._kqueue := KqueueLoop._kqueue s;
                    KqueueLoop._fds := <[fd:=mode]> (KqueueLoop._fds s) |}
                 fd mode select.KQ_EV_ADD) as (_ & _ & H & _).
Qed.

Lemma kqueue_remove_fd_fds (host : Host) (s : KqueueLoop.t) (fd : Z) :
  match (KqueueLoop.remove_fd host s fd).2 with
  | Some _ =>
      KqueueLoop._fds (KqueueLoop.remove_fd host s fd).1 = KqueueLoop._fds s
  | None =>
      is_Some (KqueueLoop._fds s !! fd)
      ∧ KqueueLoop._fds (KqueueLoop.remove_fd host s fd).1
        = delete fd (KqueueLoop._fds s)
  end.
Proof.
  unfold KqueueLoop.remove_fd.
  destruct (KqueueLoop._fds s !! fd) as [old|] eqn:Hfd; [|done].
  destruct (control_sends_prefix host s fd old select.KQ_EV_DELETE)
    as (_ & _ & H & _).
  destruct (KqueueLoop._control host s fd old select.KQ_EV_DELETE)
    as [s' [e|]]; simpl in *; [done|]. rewrite H. eauto.
Qed.

Lemma kqueue_modify_fd_dom (host : Host) (s : KqueueLoop.t) (fd mode : Z) :
  dom (KqueueLoop._fds (KqueueLoop.modify_fd host s fd mode).1)
  = dom (KqueueLoop._fds s).
Proof.
  unfold KqueueLoop.modify_fd.
  pose proof (kqueue_remove_fd_fds host s fd) as H.
  destruct (KqueueLoop.remove_fd host s fd) as [s' [e|]]; simpl in *;
    [by rewrite H|].
  destruct H as [Hin H].
  rewrite kqueue_add_fd_fds, H, dom_insert_L, dom_delete_L.
  apply elem_of_dom in Hin. apply set_eq. intros k.
  rewrite elem_of_union, elem_of_difference, elem_of_singleton.
  destruct (decide (k = fd)) as [->|]; tauto.
Qed.

(** What [_control] raises is what the kernel call raised. *)
Lemma submit_error_is_the_kernels
    (host : Host) (es kq : list select.kevent) (ex : exn) :
  (KqueueLoop.submit host kq es).2 = Some ex →
  ∃ kq' e, kqueue_change host kq' e = Some ex.
Proof.
  revert kq. induction es as [|e es IH]; intros kq; simpl; [done|].
  destruct (kqueue_change host kq e) as [ex'|] eqn:Hc; simpl.
  - intros [= <-]. by exists kq, e.
  - apply IH.
Qed.

Lemma do_call_kqueue_in_step
    (host : Host) (c : reg_call) (self : EventLoop.t) (b : KqueueLoop.t) :
  EventLoop._impl self = ImplKqueue b →
  dom (EventLoop._fd_to_f self) ⊆ dom (KqueueLoop._fds b) →
  ∃ b', EventLoop._impl (do_call host c self).1 = ImplKqueue b'
        ∧ dom (EventLoop._fd_to_f (do_call host c self).1)
          ⊆ dom (KqueueLoop._fds b').
Proof.
  intros Himpl Hdom. destruct c as [f mode|f|f mode]; simpl.
  - unfold EventLoop.add. simpl. rewrite Himpl. simpl.
    pose proof (kqueue_add_fd_fds host b (fileno f) mode) as Hfds.
    destruct (KqueueLoop.add_fd host b (fileno f) mode) as [b' r]; simpl in *.
    exists b'. split; [done|]. rewrite Hfds, !dom_insert_L. set_solver.
  - unfold EventLoop.remove.
    destruct (EventLoop._fd_to_f self !! fileno f) as [g|] eqn:Hf; simpl; [|eauto].
    rewrite Himpl. simpl.
    pose proof (kqueue_remove_fd_fds host b (fileno f)) as Hfds.
    destruct (KqueueLoop.remove_fd host b (fileno f)) as [b' [e|]]; simpl in *;
      exists b'; (split; [done|]); rewrite dom_delete_L.
    + rewrite Hfds. set_solver.
    + destruct Hfds as [_ ->]. rewrite dom_delete_L. set_solver.
  - unfold EventLoop.modify. rewrite Himpl. simpl.
    pose proof (kqueue_modify_fd_dom host b (fileno f) mode) as Hfds.
    destruct (KqueueLoop.modify_fd host b (fileno f) mode) as [b' r]; simpl in *.
    exists b'. split; [done|]. by rewrite Hfds.
Qed.

(** X17: on the kqueue backend every registered descriptor has a remembered
    mode, whatever the calls and whatever the kernel answers: the property
    holds of a new loop and every add, remove and modify keeps it, also
    when it raises.  So a [remove] of a registered endpoint never fails on
    the backend's own lookup: what it raises is what a kernel call
    raised. *)
Theorem kqueue_backend_knows_every_registered_descriptor
    (host : Host) (cs : list reg_call) (self : EventLoop.t) (b : KqueueLoop.t) :
  EventLoop._impl self = ImplKqueue b →
  dom (EventLoop._fd_to_f self) ⊆ dom (KqueueLoop._fds b) →
  ∃ b', EventLoop._impl (do_calls host cs self) = ImplKqueue b'
        ∧ dom (EventLoop._fd_to_f (do_calls host cs self))
          ⊆ dom (KqueueLoop._fds b')
        ∧ ∀ f e,
            is_Some (EventLoop._fd_to_f (do_calls host cs self) !! fileno f) →
            (EventLoop.remove host (do_calls host cs self) f).2 = Some e →
            ∃ kq ev, kqueue_change host kq ev = Some e.
Proof.
  revert self b. induction cs as [|c cs IH]; intros self b Himpl Hdom.
  - exists b. split; [done|]. split; [done|]. simpl.
    intros f e [g Hf] He. revert He. unfold EventLoop.remove.
    rewrite Hf. simpl. rewrite Himpl. simpl. unfold KqueueLoop.remove_fd.
    assert (Hin : is_Some (KqueueLoop._fds b !! fileno f)).
    { apply elem_of_dom. apply Hdom. apply elem_of_dom. eauto. }
    destruct Hin as [old Hold]. rewrite Hold.
    unfold KqueueLoop._control.
    pose proof (submit_error_is_the_kernels host
                  (KqueueLoop.control_events (fileno f) old select.KQ_EV_DELETE)
                  (KqueueLoop._kqueue b)) as Hsub.
    destruct (KqueueLoop.submit host _ _) as [kq [ex|]]; simpl in *; [|done].
    intros [= <-]. by apply Hsub.
  - simpl. destruct (do_call_kqueue_in_step host c self b Himpl Hdom)
      as (b1 & Himpl1 & Hdom1).
    apply (IH _ b1 Himpl1 Hdom1).
Qed.

(** X18: on the epoll backend the registration calls go to the epoll object
    one for one and in order: after a sequence of calls with no add of a
    registered descriptor and no remove of an unregistered one, the epoll
    object has been asked a register for each add, an unregister for each
    remove and a modify for each modify, with the same descriptor and mode,
    whether or not these calls raised. *)
Theorem epoll_backend_gets_every_call_in_order
    (host : Host) (cs : list reg_call) (self : EventLoop.t) (b : EpollLoop.t) :
  EventLoop._impl self = ImplEpoll b →
  well_formed (dom (EventLoop._fd_to_f self)) cs →
  EventLoop._impl (do_calls host cs self)
  = ImplEpoll {| EpollLoop._epoll := EpollLoop._epoll b ++ (epoll_call_of <$> cs) |}.
Proof.
  revert self b. induction cs as [|c cs IH]; intros self b Himpl Hwf.
  - simpl. rewrite app_nil_r, Himpl. by destruct b.
  - simpl.
    assert (Hstep : EventLoop._impl (do_call host c self).1
                    = ImplEpoll {| EpollLoop._epoll :=
                                     EpollLoop._epoll b ++ [epoll_call_of c] |}
                    ∧ well_formed (dom (EventLoop._fd_to_f (do_call host c self).1)) cs).
    { rewrite do_call_registry.
      destruct c as [f mode|f|f mode]; simpl in Hwf |- *.
      - destruct Hwf as [_ Hwf]. rewrite dom_insert_L. split; [|done].
        unfold EventLoop.add. simpl. by rewrite Himpl.
      - destruct Hwf as [Hin Hwf]. rewrite dom_delete_L. split; [|done].
        apply elem_of_dom in Hin as [g Hg].
        unfold EventLoop.remove. rewrite Hg. simpl. by rewrite Himpl.
      - split; [|done]. unfold EventLoop.modify. by rewrite Himpl. }
    destruct Hstep as [Himpl1 Hwf1].
    rewrite (IH _ _ Himpl1 Hwf1). simpl. by rewrite <- app_assoc.
Qed.

Lemma select_monitored_add_fd (b : SelectLoop.t) (fd mode : Z) :
  select_monitored (SelectLoop.add_fd b fd mode) ⊆ {[fd]} ∪ select_monitored b.
Proof.
  unfold select_monitored, SelectLoop.add_fd; simpl.
  destruct (truthy (Z.land mode POLL_IN)), (truthy (Z.land mode POLL_OUT)),
    (truthy (Z.land mode POLL_ERR)); set_solver.
Qed.

Lemma select_monitored_remove_fd (b : SelectLoop.t) (fd : Z) :
  select_monitored (SelectLoop.remove_fd b fd) = select_monitored b ∖ {[fd]}.
Proof.
  assert (Hrm : ∀ s : gset Z, (if decide (fd ∈ s) then s ∖ {[fd]} else s) = s ∖ {[fd]}).
  { intros s. case_decide; set_solver. }
  unfold select_monitored, SelectLoop.remove_fd; simpl. rewrite !Hrm. set_solver.
Qed.

Lemma do_call_select_in_step
    (host : Host) (c : reg_call) (self : EventLoop.t) (b : SelectLoop.t) :
  EventLoop._impl self = ImplSelect b →
  select_monitored b ⊆ dom (EventLoop._fd_to_f self) →
  modifies_registered (dom (EventLoop._fd_to_f self)) [c] →
  ∃ b', EventLoop._impl (do_call host c self).1 = ImplSelect b'
        ∧ select_monitored b' ⊆ dom (EventLoop._fd_to_f (do_call host c self).1).
Proof.
  intros Himpl Hsub Hc. destruct c as [f mode|f|f mode]; simpl in *.
  - unfold EventLoop.add. simpl. rewrite Himpl. simpl.
    eexists. split; [done|]. rewrite dom_insert_L.
    pose proof (select_monitored_add_fd b (fileno f) mode). set_solver.
  - unfold EventLoop.remove.
    destruct (EventLoop._fd_to_f self !! fileno f) as [g|] eqn:Hf; simpl; [|eauto].
    rewrite Himpl. simpl. eexists. split; [done|].
    rewrite dom_delete_L, select_monitored_remove_fd. set_solver.
  - unfold EventLoop.modify. rewrite Himpl. simpl.
    eexists. split; [done|]. destruct Hc as [Hin _].
    unfold SelectLoop.modify_fd.
    pose proof (select_monitored_add_fd (SelectLoop.remove_fd b (fileno f))
                  (fileno f) mode) as Hadd.
    rewrite select_monitored_remove_fd in Hadd. set_solver.
Qed.

Lemma select_poll_translates
    (host : Host) (self : EventLoop.t) (b : SelectLoop.t) (now : nat) (timeout : Z)
    (r w x : list Z) :
  EventLoop._impl self = ImplSelect b →
  select_monitored b ⊆ dom (EventLoop._fd_to_f self) →
  select_wait host (SelectLoop._r_list b) (SelectLoop._w_list b)
              (SelectLoop._x_list b) now (Some timeout) = inr (r, w, x) →
  (∀ fd, fd ∈ r → fd ∈ SelectLoop._r_list b) →
  (∀ fd, fd ∈ w → fd ∈ SelectLoop._w_list b) →
  (∀ fd, fd ∈ x → fd ∈ SelectLoop._x_list b) →
  ∃ l, EventLoop.poll host self now timeout = inr l.
Proof.
  intros Himpl Hsub Hwait Hr Hw Hx.
  unfold EventLoop.poll. rewrite Himpl. simpl. unfold SelectLoop.poll.
  rewrite Hwait, select_merge_reports.
  pose proof (translate_result (EventLoop._fd_to_f self)
                (map_to_list (foldl (λ res p, dict_or res p.1 p.2) ∅
                                    (select_reports r w x)))) as Ht.
  destruct (EventLoop.translate _ _) as [e|l]; [|eauto].
  exfalso. destruct Ht as (fd & Hin & Hnone & _).
  apply list_elem_of_fmap in Hin as ([fd' fl] & -> & Hin). simpl in Hnone.
  destruct (merged_of_dict (select_reports r w x)) as [_ Hl].
  apply Hl in Hin as [Hne _].
  destruct (flags_of fd' (select_reports r w x)) as [|fl' fs] eqn:Hfl; [done|].
  assert (Hrep : (fd', fl') ∈ select_reports r w x).
  { apply flags_of_elem. rewrite Hfl. apply elem_of_cons. by left. }
  assert (Hmon : fd' ∈ select_monitored b).
  { unfold select_monitored.
    apply select_reports_elem in Hrep as [[? _]|[[? _]|[? _]]]; set_solver. }
  apply Hsub in Hmon. apply elem_of_dom in Hmon as [g Hg]. congruence.
Qed.

(** X19: on the select backend, as long as modify is only used on registered
    descriptors, the backend watches registered descriptors only, whatever
    the adds and removes; and then a poll in which [select.select] returns
    descriptors it was given never fails with a [KeyError]: every event is
    translated. *)
Theorem select_backend_watches_registered_descriptors_only
    (host : Host) (cs : list reg_call) (self : EventLoop.t) (b : SelectLoop.t) :
  EventLoop._impl self = ImplSelect b →
  select_monitored b ⊆ dom (EventLoop._fd_to_f self) →
  modifies_registered (dom (EventLoop._fd_to_f self)) cs →
  ∃ b', EventLoop._impl (do_calls host cs self) = ImplSelect b'
        ∧ select_monitored b' ⊆ dom (EventLoop._fd_to_f (do_calls host cs self))
        ∧ ∀ now timeout r w x,
            select_wait host (SelectLoop._r_list b') (SelectLoop._w_list b')
                        (SelectLoop._x_list b') now (Some timeout) = inr (r, w, x) →
            (∀ fd, fd ∈ r → fd ∈ SelectLoop._r_list b') →
            (∀ fd, fd ∈ w → fd ∈ SelectLoop._w_list b') →
            (∀ fd, fd ∈ x → fd ∈ SelectLoop._x_list b') →
            ∃ l, EventLoop.poll host (do_calls host cs self) now timeout = inr l.
Proof.
  revert self b. induction cs as [|c cs IH]; intros self b Himpl Hsub Hcs.
  - exists b. split; [done|]. split; [done|]. simpl.
    intros now timeout r w x. by apply select_poll_translates.
  - simpl.
    assert (Hc : modifies_registered (dom (EventLoop._fd_to_f self)) [c]
                 ∧ modifies_registered
                     (dom (EventLoop._fd_to_f (do_call host c self).1)) cs).
    { rewrite do_call_registry.
      destruct c as [f mode|f|f mode]; simpl in Hcs |- *.
      - by rewrite dom_insert_L.
      - by rewrite dom_delete_L.
      - destruct Hcs as [? ?]. done. }
    destruct Hc as [Hc Hcs'].
    destruct (do_call_select_in_step host c self b Himpl Hsub Hc)
      as (b1 & Himpl1 & Hsub1).
    apply (IH _ b1 Himpl1 Hsub1 Hcs').
Qed.


(** ** Concrete instances of the further properties *)

Lemma select_remove_fd_undoes_add_fd_witness :
  SelectLoop.remove_fd (SelectLoop.add_fd empty_select 7 POLL_IN) 7 = empty_select.
Proof.
  apply (proj2 (proj2 (select_remove_fd_undoes_add_fd empty_select 7 POLL_IN))).
  unfold select_monitored; simpl. set_solver.
Defined.

Lemma modify_fd_of_a_descriptor_never_added_witness :
  (KqueueLoop.remove_fd quiet_host empty_kqueue 7 = (empty_kqueue, Some (key_error 7))
   ∧ KqueueLoop.modify_fd quiet_host empty_kqueue 7 POLL_IN
     = (empty_kqueue, Some (key_error 7)))
  ∧ SelectLoop.modify_fd empty_select 7 POLL_IN
    = SelectLoop.add_fd empty_select 7 POLL_IN.
Proof.
  split.
  - apply (proj1 (modify_fd_of_a_descriptor_never_added quiet_host 7 POLL_IN)
                 empty_kqueue).
    reflexivity.
  - apply (proj2 (modify_fd_of_a_descriptor_never_added quiet_host 7 POLL_IN)
                 empty_select).
    unfold select_monitored; simpl. set_solver.
Defined.

Lemma kqueue_remove_fd_undoes_add_fd_witness :
  KqueueLoop._fds
    (KqueueLoop.remove_fd quiet_host
       (KqueueLoop.add_fd quiet_host empty_kqueue 7 (Z.lor POLL_IN POLL_OUT)).1 7).1
  = KqueueLoop._fds empty_kqueue
  ∧ KqueueLoop._kqueue
      (KqueueLoop.remove_fd quiet_host
         (KqueueLoop.add_fd quiet_host empty_kqueue 7 (Z.lor POLL_IN POLL_OUT)).1 7).1
    = KqueueLoop._kqueue empty_kqueue
      ++ KqueueLoop.control_events 7 (Z.lor POLL_IN POLL_OUT) select.KQ_EV_ADD
      ++ KqueueLoop.control_events 7 (Z.lor POLL_IN POLL_OUT) select.KQ_EV_DELETE
  ∧ (λ e, (select.ident e, select.filter e))
      <$> KqueueLoop.control_events 7 (Z.lor POLL_IN POLL_OUT) select.KQ_EV_DELETE
    = (λ e, (select.ident e, select.filter e))
      <$> KqueueLoop.control_events 7 (Z.lor POLL_IN POLL_OUT) select.KQ_EV_ADD.
Proof.
  apply (kqueue_remove_fd_undoes_add_fd quiet_host empty_kqueue 7
           (Z.lor POLL_IN POLL_OUT)); reflexivity.
Defined.

Lemma kqueue_remembers_modes_through_failures_witness :
  KqueueLoop._fds (KqueueLoop.remove_fd refusing_host refused_add 7).1
  = KqueueLoop._fds refused_add
  ∧ (is_Some (KqueueLoop._fds (KqueueLoop.add_fd quiet_host empty_kqueue 7 POLL_IN).1
              !! 7)
     ∧ KqueueLoop._fds
         (KqueueLoop.remove_fd quiet_host
            (KqueueLoop.add_fd quiet_host empty_kqueue 7 POLL_IN).1 7).1
       = delete 7
           (KqueueLoop._fds (KqueueLoop.add_fd quiet_host empty_kqueue 7 POLL_IN).1)).
Proof.
  split.
  - apply (proj1 (proj2 (kqueue_remembers_modes_through_failures
                           refusing_host refused_add 7 POLL_IN))
                 (os_error 9)).
    reflexivity.
  - apply (proj1 (proj2 (proj2 (kqueue_remembers_modes_through_failures
                                  quiet_host
                                  (KqueueLoop.add_fd quiet_host empty_kqueue 7 POLL_IN).1
                                  7 POLL_IN)))).
    reflexivity.
Defined.

Lemma poll_reports_only_some_flags_witness :
  (5 ≠ 0 ∧ Z.land 5 kqueue_mask = 5
   ∧ Z.land 5 POLL_ERR = 0 ∧ Z.land 5 POLL_HUP = 0 ∧ Z.land 5 POLL_NVAL = 0)
  ∧ (5 ≠ 0 ∧ Z.land 5 select_mask = 5
     ∧ Z.land 5 POLL_HUP = 0 ∧ Z.land 5 POLL_NVAL = 0).
Proof.
  split.
  - apply (proj1 (poll_reports_only_some_flags busy_host 0%nat 1)
                 empty_kqueue [(5, 1); (3, 5)] 3 5); [reflexivity|].
    apply elem_of_cons. right. apply elem_of_cons. by left.
  - apply (proj2 (poll_reports_only_some_flags busy_host 0%nat 1)
                 empty_select [(5, 1); (3, 5)] 3 5); [reflexivity|].
    apply elem_of_cons. right. apply elem_of_cons. by left.
Defined.

Lemma registry_changes_before_backend_is_asked_witness :
  EventLoop.remove quiet_host epoll_loop sock3
  = (epoll_loop, Some (key_error (fileno sock3))).
Proof.
  apply (proj1 (proj2 (proj2 (registry_changes_before_backend_is_asked
                                quiet_host epoll_loop sock3 POLL_IN)))).
  reflexivity.
Defined.

Lemma remove_handler_undoes_add_handler_witness :
  EventLoop.remove_handler (EventLoop.add_handler one_handler 2%nat true) 2%nat
  = (one_handler, None).
Proof.
  apply (remove_handler_undoes_add_handler one_handler 2%nat true);
    [reflexivity| |];
    intros H; apply list_elem_of_singleton in H; discriminate H.
Defined.

Lemma readded_handler_moves_to_the_end_witness :
  (EventLoop.remove_handler (EventLoop.add_handler two_handlers 1%nat true) 1%nat).2
  = None
  ∧ EventLoop._handlers
      (EventLoop.remove_handler (EventLoop.add_handler two_handlers 1%nat true)
                                1%nat).1
    = [] ++ [2%nat] ++ [1%nat].
Proof.
  apply (readded_handler_moves_to_the_end two_handlers 1%nat true [] [2%nat]);
    [reflexivity|reflexivity|apply not_elem_of_nil].
Defined.

Lemma remove_handler_outside_the_iteration_witness :
  (EventLoop.remove_handler one_handler 2%nat).2 = Some value_error
  ∧ EventLoop._handlers (EventLoop.remove_handler one_handler 2%nat).1
    = EventLoop._handlers one_handler.
Proof.
  apply (proj1 (proj2 (proj2 (remove_handler_outside_the_iteration
                                one_handler 2%nat eq_refl)))).
  intros H. apply list_elem_of_singleton in H. discriminate H.
Defined.

Lemma flush_goes_through_iff_pending_are_live_witness :
  [2%nat] ⊆+ [1; 2]%nat
  ∧ ([2%nat] ++ (EventLoop.flush [1; 2]%nat [2%nat]).1 ≡ₚ [1; 2]%nat
     ∧ (EventLoop.flush [1; 2]%nat [2%nat]).1 `sublist_of` [1; 2]%nat).
Proof.
  split.
  - apply (proj1 (proj1 (flush_goes_through_iff_pending_are_live
                           [1; 2]%nat [2%nat]))).
    reflexivity.
  - apply (proj1 (proj2 (flush_goes_through_iff_pending_are_live
                           [1; 2]%nat [2%nat]))).
    reflexivity.
Defined.

Lemma run_returns_with_flag_clear_and_nothing_pending_witness :
  consistent (EventLoop.run quiet_host leaving 4 (EventLoop.enter_run one_handler 0))
  ∧ (EventLoop.pc (EventLoop.run quiet_host leaving 4
                                 (EventLoop.enter_run one_handler 0))
     = EventLoop.Returned →
     EventLoop._iterating
       (EventLoop.loop (EventLoop.run quiet_host leaving 4
                                      (EventLoop.enter_run one_handler 0)))
     = false
     ∧ EventLoop._handlers_to_remove
         (EventLoop.loop (EventLoop.run quiet_host leaving 4
                                        (EventLoop.enter_run one_handler 0))) = []
     ∧ EventLoop._ref_handlers
         (EventLoop.loop (EventLoop.run quiet_host leaving 4
                                        (EventLoop.enter_run one_handler 0))) = []).
Proof.
  apply (run_returns_with_flag_clear_and_nothing_pending quiet_host leaving
           one_handler 0%nat 4%nat); reflexivity.
Defined.


Lemma handlers_are_called_in_list_order_witness :
  invoked (EventLoop.trace
             (EventLoop.run quiet_host adding_and_removing 3 dispatching_two))
  = invoked (EventLoop.trace dispatching_two)
    ++ ((λ h, (h, EventLoop.events dispatching_two))
          <$> take 3 (EventLoop._handlers
                        (EventLoop.loop
                           (EventLoop.run quiet_host adding_and_removing 3
                                          dispatching_two))))
  ∧ (∀ j, EventLoop.pc (EventLoop.run quiet_host adding_and_removing 3
                                      dispatching_two)
          = EventLoop.AtDispatch j → j = 3%nat).
Proof.
  apply (handlers_are_called_in_list_order quiet_host adding_and_removing
           dispatching_two 3%nat); [reflexivity|reflexivity|].
  intros k Hk. destruct k as [|[|[|k]]].
  - exists 0%nat, 1%nat. split; reflexivity.
  - exists 1%nat, 2%nat. split; reflexivity.
  - exists 2%nat, 3%nat. split; reflexivity.
  - lia.
Defined.

Lemma kqueue_backend_knows_every_registered_descriptor_witness :
  ∃ b', EventLoop._impl (do_calls quiet_host some_calls kqueue_loop) = ImplKqueue b'
        ∧ dom (EventLoop._fd_to_f (do_calls quiet_host some_calls kqueue_loop))
          ⊆ dom (KqueueLoop._fds b')
        ∧ ∀ f e,
            is_Some (EventLoop._fd_to_f (do_calls quiet_host some_calls kqueue_loop)
                     !! fileno f) →
            (EventLoop.remove quiet_host
               (do_calls quiet_host some_calls kqueue_loop) f).2 = Some e →
            ∃ kq ev, kqueue_change quiet_host kq ev = Some e.
Proof.
  apply (kqueue_backend_knows_every_registered_descriptor quiet_host some_calls
           kqueue_loop empty_kqueue); [reflexivity|].
  simpl. rewrite !dom_empty_L. done.
Defined.

Lemma epoll_backend_gets_every_call_in_order_witness :
  EventLoop._impl (do_calls quiet_host some_calls epoll_loop)
  = ImplEpoll {| EpollLoop._epoll := [] ++ (epoll_call_of <$> some_calls) |}.
Proof.
  apply (epoll_backend_gets_every_call_in_order quiet_host some_calls epoll_loop
           {| EpollLoop._epoll := [] |}); [reflexivity|].
  simpl. rewrite dom_empty_L. repeat split; set_solver.
Defined.

Lemma select_backend_watches_registered_descriptors_only_witness :
  ∃ b', EventLoop._impl (do_calls quiet_host some_calls select_loop) = ImplSelect b'
        ∧ select_monitored b'
          ⊆ dom (EventLoop._fd_to_f (do_calls quiet_host some_calls select_loop))
        ∧ ∀ now timeout r w x,
            select_wait quiet_host (SelectLoop._r_list b') (SelectLoop._w_list b')
                        (SelectLoop._x_list b') now (Some timeout) = inr (r, w, x) →
            (∀ fd, fd ∈ r → fd ∈ SelectLoop._r_list b') →
            (∀ fd, fd ∈ w → fd ∈ SelectLoop._w_list b') →
            (∀ fd, fd ∈ x → fd ∈ SelectLoop._x_list b') →
            ∃ l, EventLoop.poll quiet_host
                   (do_calls quiet_host some_calls select_loop) now timeout = inr l.
Proof.
  apply (select_backend_watches_registered_descriptors_only quiet_host some_calls
           select_loop empty_select); [reflexivity| |].
  - unfold select_monitored; simpl. set_solver.
  - simpl. rewrite dom_empty_L. repeat split; set_solver.
Defined.
